(** * Concerto graphical editor: the graph store of [src/App.jsx]

    A shallow embedding of the state kept by the [App] component (the node
    collection, the edge collection, the selected node id, the React Flow
    instance and the module-level id counter) and of the handlers that
    change it, followed by the properties of the editing protocol.

    Conventions of the embedding.
    - A React state cell with its setter becomes a field of [state]; a
      handler is a function from the state at the time of the event to the
      state after it.  [setNodes (fun nds => ...)] applies its argument to the
      current collection, which is what the functional form of a setter does.
    - A handler that throws (a [TypeError]) returns [None]; nothing has been
      stored at the point where any of them can throw.
    - A JavaScript array is a list of slots, [None] being an empty slot; an
      object whose keys are computed at run time (a field) is a [gmap]; the
      [data] object of a node, read through fixed keys, is a record whose
      entries may be absent.
    - A JavaScript Number holds every integer up to 2^53 exactly and no
      further: the id counter is a natural number whose increment stops
      there.  An array index is a natural number below 2^32 - 1; an
      assignment beyond it does not touch the slots. *)

From Stdlib Require Import NArith DecimalString DecimalN.
From stdpp Require Import base option list strings gmap.

(** ** JavaScript values used by the component *)

Module Js.

(** An object with string values and keys known only at run time:
    a field of a concept, [{ type: 'String', name: 'age' }]. *)
Abbreviation object := (gmap string string).

(** What an array slot can hold: an object or [undefined]. *)
Inductive elem :=
| Undefined
| Obj (o : object).

(** An array: [None] is an empty slot (a hole), which reads as
    [undefined] but is skipped by [filter] and [map]. *)
Abbreviation array := (list (option elem)).

(** [a[i]] *)
Definition get (a : array) (i : nat) : elem :=
  match a !! i with
  | Some (Some e) => e
  | _ => Undefined
  end.

(** The array indices are the integers from 0 to 2^32 - 2. *)
Definition is_index (i : nat) : bool := (N.of_nat i <? 4294967295)%N.

(** [a[i] = e]: in range the slot is overwritten; out of range the array
    grows to length [i + 1] and the slots in between stay empty, as long as
    [i] is an array index. Beyond the last index the assignment creates a
    property named by [i] instead and the slots stay as they are; nothing
    reads such a property back (a copy, [filter] and [map] visit the indices
    only), so it is not kept. *)
Definition set (a : array) (i : nat) (e : elem) : array :=
  if decide (i < length a) then <[i := Some e]> a
  else if is_index i then a ++ replicate (i - length a) None ++ [Some e]
  else a.

(** [[...a]]: the array iterator yields [undefined] for an empty slot. *)
Definition spread (a : array) : array :=
  (fun s => Some (default Undefined s)) <$> a.

(** [{...e}]: the own properties of [e]; none for [undefined]. *)
Definition spread_obj (e : elem) : object :=
  match e with
  | Obj o => o
  | Undefined => ∅
  end.

(** [a.filter(f)], the callback receiving the element and its index;
    empty slots are not visited. [i] is the index of the first slot. *)
Fixpoint filter_from (f : elem -> nat -> bool) (i : nat) (a : array) : array :=
  match a with
  | [] => []
  | None :: a' => filter_from f (S i) a'
  | Some e :: a' =>
      if f e i then Some e :: filter_from f (S i) a'
      else filter_from f (S i) a'
  end.

Definition filter (f : elem -> nat -> bool) (a : array) : array :=
  filter_from f 0 a.

(** [n++] on a Number that holds a natural number up to 2^53: below 2^53
    the successor is exact; 2^53 + 1 is not a Number and rounds back to
    2^53, so the value stays. *)
Definition incr (n : N) : N :=
  if (n <? 9007199254740992)%N then N.succ n else n.

(** [`${n}`] for a natural number up to 2^53: its decimal digits. *)
Definition to_string (n : N) : string :=
  NilZero.string_of_uint (N.to_uint n).

(** Reading a string of decimal digits back as a number. *)
Definition parse_nat (s : string) : option N :=
  N.of_uint <$> NilZero.uint_of_string s.

(** [!s] for a string: only the empty string is falsy. *)
Definition falsy (s : string) : bool :=
  if decide (s = EmptyString) then true else false.

End Js.

(** ** The data model: positions, node data, nodes *)

Module Position.
(** [{ x, y }]; the handlers only copy coordinates around. *)
Record t := make { x : Z; y : Z }.
End Position.

Module Data.
(** The [data] object of a node, [{ label, fields }], and equally the
    partial object handed to [updateNodeData]: [None] is a key that the
    object does not have. *)
Record t := make { label : option string; fields : option Js.array }.

(** One key of [{...old, ...new}]: the later object wins when it has
    the key. *)
Definition pick {A} (old new : option A) : option A :=
  match new with
  | Some v => Some v
  | None => old
  end.

(** [{ ...old, ...new }] *)
Definition spread (old new : t) : t :=
  {| label := pick (label old) (label new);
     fields := pick (fields old) (fields new) |}.
End Data.

Module Node.
Record t := make {
  id : string;
  type : string;
  position : Position.t;
  data : Data.t }.

(** [{ ...node, data: d }] *)
Definition with_data (node : t) (d : Data.t) : t :=
  {| id := id node; type := type node; position := position node; data := d |}.
End Node.

(** The object React Flow passes to [onInit]; the component calls one
    method of it. *)
Record ReactFlowInstance := {
  screenToFlowPosition : Position.t -> Position.t }.

(** [a === b] where [a] is a string and [b] is a string or [null]. *)
Definition strict_eq (a : string) (b : option string) : bool :=
  bool_decide (Some a = b).

(** ** The component *)

Module App.

(** The state cells of [App] together with the module-level counter [id].
    Edges are objects of the rendering library and stay abstract. *)
Record state {Edge : Type} := State {
  id : N;
  nodes : list Node.t;
  edges : list Edge;
  reactFlowInstance : option ReactFlowInstance;
  selectedNodeId : option string }.
Arguments state : clear implicits.

Definition initialNodes : list Node.t :=
  [ {| Node.id := "1";
       Node.type := "concerto";
       Node.position := {| Position.x := 250; Position.y := 100 |};
       Node.data :=
         {| Data.label := Some "Person";
            Data.fields := Some
              [ Some (Js.Obj {[ "type" := "String"; "name" := "firstName" ]});
                Some (Js.Obj {[ "type" := "String"; "name" := "lastName" ]});
                Some (Js.Obj {[ "type" := "Integer"; "name" := "age" ]}) ] |} |} ].

(** [let id = 2; const getId = () => `${id++}`]: the string of the
    current counter, and the counter after the call. *)
Definition getId (id : N) : string * N :=
  (Js.to_string id, Js.incr id).

Section Handlers.
Context {Connection Edge : Type}.
Variable addEdge : Connection -> list Edge -> list Edge.

Abbreviation state := (state Edge).

(** The state at the first render. *)
Definition initial : state :=
  {| id := 2; nodes := initialNodes; edges := [];
     reactFlowInstance := None; selectedNodeId := None |}.

Definition setNodes (f : list Node.t -> list Node.t) (st : state) : state :=
  {| id := id st; nodes := f (nodes st); edges := edges st;
     reactFlowInstance := reactFlowInstance st;
     selectedNodeId := selectedNodeId st |}.

Definition setEdges (f : list Edge -> list Edge) (st : state) : state :=
  {| id := id st; nodes := nodes st; edges := f (edges st);
     reactFlowInstance := reactFlowInstance st;
     selectedNodeId := selectedNodeId st |}.

Definition setReactFlowInstance (inst : ReactFlowInstance) (st : state) : state :=
  {| id := id st; nodes := nodes st; edges := edges st;
     reactFlowInstance := Some inst;
     selectedNodeId := selectedNodeId st |}.

Definition setSelectedNodeId (sel : option string) (st : state) : state :=
  {| id := id st; nodes := nodes st; edges := edges st;
     reactFlowInstance := reactFlowInstance st;
     selectedNodeId := sel |}.

Definition set_id (n : N) (st : state) : state :=
  {| id := n; nodes := nodes st; edges := edges st;
     reactFlowInstance := reactFlowInstance st;
     selectedNodeId := selectedNodeId st |}.

(** [nodes.find((n) => n.id === selectedNodeId)] *)
Definition selectedNode (st : state) : option Node.t :=
  find (fun n => strict_eq (Node.id n) (selectedNodeId st)) (nodes st).

Definition onConnect (params : Connection) (st : state) : state :=
  setEdges (fun eds => addEdge params eds) st.

(** [type] is the drag payload, [clientX] and [clientY] the pointer
    position of the drop event. *)
Definition onDrop (type : string) (clientX clientY : Z) (st : state)
  : option state :=
  if Js.falsy type then Some st
  else
    match reactFlowInstance st with
    | None => None
    | Some inst =>
        let position :=
          screenToFlowPosition inst
            {| Position.x := clientX; Position.y := clientY |} in
        let '(newId, id') := getId (id st) in
        let newNode :=
          {| Node.id := newId;
             Node.type := "concerto";
             Node.position := position;
             Node.data := {| Data.label := Some ("New " +:+ type);
                             Data.fields := Some [] |} |} in
        Some (setSelectedNodeId (Some (Node.id newNode))
                (setNodes (fun nds => nds ++ [newNode])
                   (set_id id' st)))
    end.

Definition onNodeClick (node : Node.t) (st : state) : state :=
  setSelectedNodeId (Some (Node.id node)) st.

Definition onPaneClick (st : state) : state :=
  setSelectedNodeId None st.

(** Helper to update node data immutably. *)
Definition updateNodeData (nodeId : option string) (newData : Data.t)
    (st : state) : state :=
  setNodes
    (fun nds =>
       (fun node =>
          if strict_eq (Node.id node) nodeId
          then Node.with_data node (Data.spread (Node.data node) newData)
          else node) <$> nds)
    st.

(** 1. Rename Node *)
Definition onNameChange (newName : string) (st : state) : state :=
  updateNodeData (selectedNodeId st)
    {| Data.label := Some newName; Data.fields := None |} st.

Definition newProp : Js.elem :=
  Js.Obj {[ "type" := "String"; "name" := "newProp" ]}.

(** 2. Add Field *)
Definition onAddField (st : state) : state :=
  match selectedNode st with
  | None => st
  | Some node =>
      let newFields :=
        Js.spread (default [] (Data.fields (Node.data node)))
          ++ [Some newProp] in
      updateNodeData (selectedNodeId st)
        {| Data.label := None; Data.fields := Some newFields |} st
  end.

(** 3. Update Field (Name or Type) *)
Definition onUpdateField (index : nat) (key value : string) (st : state)
  : option state :=
  match selectedNode st with
  | None => Some st
  | Some node =>
      match Data.fields (Node.data node) with
      | None => None
      | Some fields =>
          let newFields := Js.spread fields in
          let newFields :=
            Js.set newFields index
              (Js.Obj (<[key := value]>
                         (Js.spread_obj (Js.get newFields index)))) in
          Some (updateNodeData (selectedNodeId st)
                  {| Data.label := None; Data.fields := Some newFields |} st)
      end
  end.

(** 4. Remove Field *)
Definition onRemoveField (index : nat) (st : state) : option state :=
  match selectedNode st with
  | None => Some st
  | Some node =>
      match Data.fields (Node.data node) with
      | None => None
      | Some fields =>
          let newFields :=
            Js.filter (fun _ i => negb (i =? index)) fields in
          Some (updateNodeData (selectedNodeId st)
                  {| Data.label := None; Data.fields := Some newFields |} st)
      end
  end.

(** *** Events *)

(** The events of the handlers that the component defines itself: what
    the canvas and the properties panel send to them. The changes that the
    library passes through the two handlers of the hooks are inputs of their
    own, see [input] below. *)
Inductive event :=
| Init (inst : ReactFlowInstance)
| Connect (params : Connection)
| Drop (type : string) (clientX clientY : Z)
| NodeClick (node : Node.t)
| PaneClick
| NameChange (newName : string)
| AddField
| UpdateField (index : nat) (key value : string)
| RemoveField (index : nat).

Definition handle (e : event) (st : state) : option state :=
  match e with
  | Init inst => Some (setReactFlowInstance inst st)
  | Connect params => Some (onConnect params st)
  | Drop type cx cy => onDrop type cx cy st
  | NodeClick node => Some (onNodeClick node st)
  | PaneClick => Some (onPaneClick st)
  | NameChange newName => Some (onNameChange newName st)
  | AddField => Some (onAddField st)
  | UpdateField i k v => onUpdateField i k v st
  | RemoveField i => onRemoveField i st
  end.

(** A handler that throws has stored nothing: the state stays. *)
Definition step (st : state) (e : event) : state :=
  default st (handle e st).

Definition run (es : list event) (st : state) : state :=
  foldl step st es.

(** *** The handlers that the hooks supply *)

(** [const [nodes, setNodes, onNodesChange] = useNodesState(initialNodes)]
    and [const [edges, setEdges, onEdgesChange] = useEdgesState([])]: the
    two handlers come from the library and are handed back to it
    ([onNodesChange={onNodesChange}], [onEdgesChange={onEdgesChange}]). They
    store the collection that the library computes from the changes it
    reports (a node dragged, selected, measured or removed; an edge selected
    or removed). What a change does is the library's and is a parameter
    here. *)
Context {NodeChanges EdgeChanges : Type}.
Variable applyNodeChanges : NodeChanges -> list Node.t -> list Node.t.
Variable applyEdgeChanges : EdgeChanges -> list Edge -> list Edge.

Definition onNodesChange (changes : NodeChanges) (st : state) : state :=
  setNodes (fun nds => applyNodeChanges changes nds) st.

Definition onEdgesChange (changes : EdgeChanges) (st : state) : state :=
  setEdges (fun eds => applyEdgeChanges changes eds) st.

(** Everything the component reacts to: the events of its own handlers
    and the changes passed through the two handlers of the hooks. *)
Inductive input :=
| Own (e : event)
| NodesChange (changes : NodeChanges)
| EdgesChange (changes : EdgeChanges).

Definition react (st : state) (i : input) : state :=
  match i with
  | Own e => step st e
  | NodesChange changes => onNodesChange changes st
  | EdgesChange changes => onEdgesChange changes st
  end.

End Handlers.

End App.

(** ** Concrete states used by the examples *)

Module Sample.
Import App.

(** No connection is drawn in the examples: the edge collection is a
    list over [unit] and stays empty. *)
Abbreviation state := (App.state unit).

(** An instance whose flow coordinates are the screen coordinates. *)
Definition instance : ReactFlowInstance :=
  {| screenToFlowPosition := fun p => p |}.

(** After [onInit]. *)
Definition ready : state := setReactFlowInstance instance initial.

Definition firstName : Js.elem :=
  Js.Obj {[ "type" := "String"; "name" := "firstName" ]}.
Definition lastName : Js.elem :=
  Js.Obj {[ "type" := "String"; "name" := "lastName" ]}.
Definition age : Js.elem :=
  Js.Obj {[ "type" := "Integer"; "name" := "age" ]}.

(** The seed node, [initialNodes[0]]. *)
Definition person : Node.t :=
  {| Node.id := "1";
     Node.type := "concerto";
     Node.position := {| Position.x := 250; Position.y := 100 |};
     Node.data :=
       {| Data.label := Some "Person";
          Data.fields := Some [Some firstName; Some lastName; Some age] |} |}.

(** After a "Concept" has been dropped at (100, 100): nodes "1" and "2",
    "2" selected. *)
Definition dropped : state :=
  default ready (onDrop "Concept" 100 100 ready).

(** The node created by that drop. *)
Definition concept : Node.t :=
  {| Node.id := "2";
     Node.type := "concerto";
     Node.position := {| Position.x := 100; Position.y := 100 |};
     Node.data := {| Data.label := Some "New Concept"; Data.fields := Some [] |} |}.

(** Then the seed node is clicked. *)
Definition clicked : state := onNodeClick person dropped.

(** Then the pane is clicked. *)
Definition unselected : state := onPaneClick clicked.

(** [{ label: 'Vehicle' }] *)
Definition rename : Data.t :=
  {| Data.label := Some "Vehicle"; Data.fields := None |}.

End Sample.

(** ** Predicates of the statements *)

(** An array without empty slots. *)
Definition dense (a : Js.array) : Prop := Forall is_Some a.

(** Every field sequence of the collection is without empty slots. *)
Definition fields_dense {Edge} (st : App.state Edge) : Prop :=
  Forall (fun node => dense (default [] (Data.fields (Node.data node))))
         (App.nodes st).

(** The index of an update addresses a field of the selected node, as the
    rows of the properties panel do. *)
Definition in_range {Connection Edge} (st : App.state Edge)
    (e : App.event (Connection := Connection)) : Prop :=
  match e with
  | App.UpdateField index _ _ =>
      match App.selectedNode st with
      | Some node => index < length (default [] (Data.fields (Node.data node)))
      | None => True
      end
  | _ => True
  end.

(** [in_range] at every step of a run. *)
Fixpoint run_in_range {Connection Edge}
    (addEdge : Connection -> list Edge -> list Edge)
    (es : list App.event) (st : App.state Edge) : Prop :=
  match es with
  | [] => True
  | e :: es => in_range st e /\ run_in_range addEdge es (App.step addEdge st e)
  end.

(** The strings returned by [k] calls of [getId] in a row, [id] being the
    counter before the first of them. *)
Fixpoint getIds (k : nat) (id : N) : list string :=
  match k with
  | O => []
  | S k => let '(s, id') := App.getId id in s :: getIds k id'
  end.

(** The node ids are the decimal strings of pairwise different numbers,
    all of them below the counter. *)
Definition ids_fresh {Edge} (st : App.state Edge) : Prop :=
  exists ns : list N,
    Node.id <$> App.nodes st = Js.to_string <$> ns /\
    NoDup ns /\
    Forall (fun n => (n < App.id st)%N) ns.

(** ** The properties panel *)

Module View.

(** One row of the field list: the index its controls hand to
    [onUpdateField] and [onRemoveField], the value of the type select
    ([field.type]) and of the name input ([field.name]). *)
Record row := Row {
  index : nat;
  type : option string;
  name : option string }.

(** [fields.map((field, index) => <div key={index} ...>)]: an empty slot is
    not visited, and reading [field.type] of [undefined] throws. [i] is the
    index of the first slot. *)
Fixpoint rows_from (i : nat) (a : Js.array) : option (list row) :=
  match a with
  | [] => Some []
  | None :: a' => rows_from (S i) a'
  | Some Js.Undefined :: _ => None
  | Some (Js.Obj o) :: a' =>
      cons (Row i (o !! "type") (o !! "name")) <$> rows_from (S i) a'
  end.

Definition rows (a : Js.array) : option (list row) := rows_from 0 a.

(** The values of the [<option>] elements of the type select. *)
Definition options : list string :=
  ["String"; "Integer"; "Boolean"; "DateTime"; "Double"].

(** The right sidebar: the hint shown without a selected node, or the
    name input, the field rows and the info line of the selected node. *)
Inductive panel :=
| Placeholder
| Properties (label : option string) (rows : list row) (id type : string).

(** [selectedNode ? (...) : (...)]; [None] when rendering throws.
    A node without [fields] shows no row
    ([selectedNode.data.fields && ...]). *)
Definition render {Edge} (st : App.state Edge) : option panel :=
  match App.selectedNode st with
  | None => Some Placeholder
  | Some node =>
      let label := Data.label (Node.data node) in
      match Data.fields (Node.data node) with
      | None => Some (Properties label [] (Node.id node) (Node.type node))
      | Some fields =>
          (fun rs => Properties label rs (Node.id node) (Node.type node))
            <$> rows fields
      end
  end.

End View.

(** ** Events that the rendered interface can send *)

(** The rows of the panel rendered in [st], when it shows a node. *)
Definition shown_rows {Edge} (st : App.state Edge) : option (list View.row) :=
  match View.render st with
  | Some (View.Properties _ rs _ _) => Some rs
  | _ => None
  end.

(** [e] can come from the interface rendered in [st]: a click reports a
    node whose id is in the collection; the name input and the add button
    exist when the panel shows a node; the controls of a row pass the index
    of that row, the select passes one of its options under the key
    ["type"], the name input any text under the key ["name"]. *)
Definition offered {Connection Edge} (st : App.state Edge)
    (e : App.event (Connection := Connection)) : bool :=
  match e with
  | App.NodeClick node =>
      bool_decide (Node.id node ∈ Node.id <$> App.nodes st)
  | App.NameChange _ | App.AddField =>
      bool_decide (is_Some (shown_rows st))
  | App.UpdateField index key value =>
      match shown_rows st with
      | Some rs =>
          bool_decide (index ∈ View.index <$> rs)
          && (bool_decide (key = "type" /\ value ∈ View.options)
              || bool_decide (key = "name"))
      | None => false
      end
  | App.RemoveField index =>
      match shown_rows st with
      | Some rs => bool_decide (index ∈ View.index <$> rs)
      | None => false
      end
  | _ => true
  end.

(** [offered] at every step of a run. *)
Fixpoint ui_run {Connection Edge}
    (addEdge : Connection -> list Edge -> list Edge)
    (es : list App.event) (st : App.state Edge) : bool :=
  match es with
  | [] => true
  | e :: es => offered st e && ui_run addEdge es (App.step addEdge st e)
  end.

(** A slot that holds a field [{ type: t, name: n }] whose type is one of
    the options of the select. *)
Definition field_ok (s : option Js.elem) : Prop :=
  exists t n, s = Some (Js.Obj {[ "type" := t; "name" := n ]}) /\ t ∈ View.options.

(** A node with a label and a sequence of such fields. *)
Definition node_ok (node : Node.t) : Prop :=
  is_Some (Data.label (Node.data node)) /\
  exists fields,
    Data.fields (Node.data node) = Some fields /\ Forall field_ok fields.

(** The selected id, when there is one, is the id of a node. *)
Definition selection_ok {Edge} (st : App.state Edge) : Prop :=
  App.selectedNodeId st = None \/ is_Some (App.selectedNode st).

Definition well_formed {Edge} (st : App.state Edge) : Prop :=
  Forall node_ok (App.nodes st) /\ selection_ok st.

(** Every node has a [fields] array. *)
Definition has_fields {Edge} (st : App.state Edge) : Prop :=
  Forall (fun node => is_Some (Data.fields (Node.data node))) (App.nodes st).

(** What no handler touches: the id, the kind and the position. *)
Definition identity (node : Node.t) : string * string * Position.t :=
  (Node.id node, Node.type node, Node.position node).

(** ** Further concrete states *)

Module Case.
Import App.

(** A node whose [data] has no [fields] key. *)
Definition bare : Node.t :=
  {| Node.id := "9";
     Node.type := "concerto";
     Node.position := {| Position.x := 0; Position.y := 0 |};
     Node.data := {| Data.label := Some "Bare"; Data.fields := None |} |}.

(** That node alone, selected. *)
Definition bare_selected : Sample.state :=
  {| id := 2; nodes := [bare]; edges := [];
     reactFlowInstance := None; selectedNodeId := Some "9" |}.

(** A selection whose node is not in the collection. *)
Definition stale : Sample.state :=
  setSelectedNodeId (Some "7") Sample.dropped.

(** Two nodes that share the id "1". *)
Definition twins : Sample.state :=
  {| id := 2; nodes := [Sample.person; Sample.person]; edges := [];
     reactFlowInstance := None; selectedNodeId := Some "1" |}.

(** A node collection without the nodes whose ids are listed: what the
    library computes when it reports the removal of these nodes. *)
Definition removed (ids : list string) (nds : list Node.t) : list Node.t :=
  filter (fun node => Node.id node ∉ ids) nds.

(** The dropped concept after an update beyond the end of its empty
    field sequence: two empty slots and the field [{ name: 'age' }]. *)
Definition sparse : Sample.state :=
  default Sample.dropped (onUpdateField 2 "name" "age" Sample.dropped).

(** The library's [addEdge] is not used by the examples. *)
Definition noEdge (c : unit) (eds : list unit) : list unit := eds.

(** A session: the canvas is ready, a concept is dropped and given a
    field, the field is named and typed, the seed node is clicked and
    loses its second field, the pane is clicked. *)
Definition session : list (event (Connection := unit)) :=
  [ Init Sample.instance;
    Drop "Concept" 100 100;
    AddField;
    UpdateField 0 "name" "age";
    UpdateField 0 "type" "Integer";
    NodeClick Sample.person;
    RemoveField 1;
    NameChange "Human";
    PaneClick ].

(** A drop before [onInit], then two drops after it, one without payload. *)
Definition drops : list (event (Connection := unit)) :=
  [ Drop "Concept" 1 1;
    Init Sample.instance;
    Drop "Asset" 2 2;
    Drop EmptyString 3 3;
    Drop "Enum" 4 4 ].

End Case.

(** ** Arrays *)

Section Arrays.
Implicit Types (a : Js.array) (e : Js.elem) (i j : nat).

Lemma spread_length a : length (Js.spread a) = length a.
Proof. unfold Js.spread. apply length_fmap. Qed.

Lemma spread_dense a : dense (Js.spread a).
Proof.
  unfold Js.spread. apply Forall_fmap, Forall_true. intros s. simpl. eauto.
Qed.

Lemma spread_of_dense a : dense a -> Js.spread a = a.
Proof.
  unfold Js.spread. induction 1 as [|s a [e ->] _ IH]; csimpl; [done|].
  by rewrite IH.
Qed.

Lemma get_spread a i : Js.get (Js.spread a) i = Js.get a i.
Proof.
  unfold Js.get, Js.spread. rewrite list_lookup_fmap.
  by destruct (a !! i) as [[e|]|].
Qed.

Lemma get_out_of_range a i : length a <= i -> Js.get a i = Js.Undefined.
Proof. intros H. unfold Js.get. by rewrite lookup_ge_None_2. Qed.

Lemma set_length_in a i e : i < length a -> length (Js.set a i e) = length a.
Proof. intros H. unfold Js.set. rewrite decide_True by done. apply length_insert. Qed.

Lemma set_length_out a i e :
  length a <= i -> Js.is_index i = true -> length (Js.set a i e) = S i.
Proof.
  intros H Hx. unfold Js.set. rewrite decide_False by lia. rewrite Hx.
  rewrite !length_app, length_replicate. simpl. lia.
Qed.

Lemma set_lookup a i e :
  i < length a \/ Js.is_index i = true -> Js.set a i e !! i = Some (Some e).
Proof.
  intros Hx. unfold Js.set. case_decide as H.
  - by apply list_lookup_insert_eq.
  - destruct Hx as [Hx|Hx]; [lia|]. rewrite Hx.
    rewrite lookup_app_r by lia. rewrite lookup_app_r; rewrite length_replicate; [|lia].
    replace (i - length a - (i - length a)) with 0 by lia. done.
Qed.

Lemma set_lookup_below a i j e :
  j < length a -> j <> i -> Js.set a i e !! j = a !! j.
Proof.
  intros Hj Hne. unfold Js.set. case_decide.
  - by apply list_lookup_insert_ne.
  - destruct (Js.is_index i); [by apply lookup_app_l|done].
Qed.

Lemma set_lookup_gap a i j e :
  length a <= j -> j < i -> Js.is_index i = true ->
  Js.set a i e !! j = Some None.
Proof.
  intros Hj Hlt Hx. unfold Js.set. rewrite decide_False by lia. rewrite Hx.
  rewrite lookup_app_r by done. rewrite lookup_app_l by (rewrite length_replicate; lia).
  apply lookup_replicate_2. lia.
Qed.

(** Beyond the last array index the slots are left alone. *)
Lemma set_beyond a i e :
  length a <= i -> Js.is_index i = false -> Js.set a i e = a.
Proof.
  intros H Hx. unfold Js.set. rewrite decide_False by lia. by rewrite Hx.
Qed.

Lemma is_index_spec i : Js.is_index i = true <-> (N.of_nat i < 4294967295)%N.
Proof. unfold Js.is_index. apply N.ltb_lt. Qed.

(** A filter that rejects an index below the first slot keeps a dense
    array whole. *)
Lemma filter_from_keep a k m :
  k < m -> dense a -> Js.filter_from (fun _ j => negb (j =? k)) m a = a.
Proof.
  intros Hm Hd. revert m Hm.
  induction Hd as [|s a [e ->] _ IH]; intros m Hm; simpl; [done|].
  destruct (Nat.eqb_spec m k); [lia|]. simpl.
  f_equal. apply IH. lia.
Qed.

(** On an array without empty slots, filtering out one index is the
    deletion of that position. *)
Lemma filter_from_delete a k i :
  dense a ->
  Js.filter_from (fun _ j => negb (j =? k + i)) k a = delete i a.
Proof.
  intros Hd. revert k i.
  induction Hd as [|s a [e ->] Hd IH]; intros k i; [by destruct i|].
  simpl. destruct i as [|i].
  - rewrite Nat.add_0_r, Nat.eqb_refl. simpl.
    apply filter_from_keep; [lia|done].
  - destruct (Nat.eqb_spec k (k + S i)); [lia|]. simpl.
    f_equal. replace (k + S i) with (S k + i) by lia. apply IH.
Qed.

(** A filter that rejects an index outside the slots it visits keeps
    every slot that is not empty. *)
Lemma filter_from_miss a k i :
  i < k \/ k + length a <= i ->
  Js.filter_from (fun _ j => negb (j =? i)) k a = filter is_Some a.
Proof.
  revert k. induction a as [|[e|] a IH]; intros k Hk; simpl in *; [done| |].
  - destruct (Nat.eqb_spec k i); [lia|]. simpl.
    rewrite filter_cons_True by eauto. f_equal. apply IH. lia.
  - rewrite filter_cons_False by (by intros [? ?]). apply IH. lia.
Qed.

(** Filtering out one index leaves the slots that are not empty, the one
    at that index apart. *)
Lemma filter_from_clears a k i :
  Js.filter_from (fun _ j => negb (j =? k + i)) k a
  = filter is_Some (<[i := None]> a).
Proof.
  revert k i. induction a as [|s a IH]; intros k i; [done|].
  destruct i as [|i].
  - change (<[0 := None]> (s :: a)) with (None :: a).
    rewrite filter_cons_False by (by intros [? ?]).
    rewrite Nat.add_0_r. destruct s as [e|]; simpl.
    + rewrite Nat.eqb_refl. simpl. apply filter_from_miss. lia.
    + apply filter_from_miss. lia.
  - change (<[S i := None]> (s :: a)) with (s :: <[i := None]> a).
    replace (k + S i) with (S k + i) by lia. destruct s as [e|]; simpl.
    + destruct (Nat.eqb_spec k (S (k + i))); [lia|]. simpl.
      rewrite filter_cons_True by eauto. f_equal. exact (IH (S k) i).
    + rewrite filter_cons_False by (by intros [? ?]). exact (IH (S k) i).
Qed.

Lemma filter_clears a i :
  Js.filter (fun _ j => negb (j =? i)) a = filter is_Some (<[i := None]> a).
Proof. unfold Js.filter. apply (filter_from_clears a 0 i). Qed.

Lemma filter_delete a i :
  dense a -> Js.filter (fun _ j => negb (j =? i)) a = delete i a.
Proof. intros Hd. unfold Js.filter. by apply (filter_from_delete a 0 i). Qed.

End Arrays.

(** ** The node collection under [updateNodeData] *)

Section Store.
Context {Edge : Type}.
Implicit Types (st : App.state Edge) (node : Node.t).
Implicit Types (nodeId : option string) (d : Data.t).

Lemma strict_eq_true a b : strict_eq a b = true <-> b = Some a.
Proof.
  unfold strict_eq. rewrite bool_decide_eq_true. split; intros H; by subst.
Qed.

Lemma strict_eq_false a b : strict_eq a b = false <-> b <> Some a.
Proof.
  unfold strict_eq. rewrite bool_decide_eq_false. split; intros H E; by apply H.
Qed.

(** No string is [=== null]. *)
Lemma strict_eq_null a : strict_eq a None = false.
Proof. by apply strict_eq_false. Qed.

(** [find] after a [map] that rewrites exactly the elements [find]
    looks for, when the rewriting keeps them recognisable. *)
Lemma find_fmap_update {A} (p : A -> bool) (g : A -> A) (l : list A) :
  (forall a, p (g a) = p a) ->
  find p ((fun a => if p a then g a else a) <$> l) = g <$> find p l.
Proof.
  intros Hg. induction l as [|a l IH]; csimpl; [done|].
  destruct (p a) eqn:Ha.
  - by rewrite Hg, Ha.
  - by rewrite Ha.
Qed.

Lemma find_none_all {A} (p : A -> bool) (l : list A) :
  (forall a, p a = false) -> find p l = None.
Proof. intros Hp. induction l as [|a l IH]; simpl; [done|]. by rewrite Hp. Qed.

Lemma state_eta st :
  st = App.State Edge (App.id st) (App.nodes st) (App.edges st)
         (App.reactFlowInstance st) (App.selectedNodeId st).
Proof. by destruct st. Qed.

Lemma nodes_updateNodeData nodeId d st i :
  App.nodes (App.updateNodeData nodeId d st) !! i =
  (fun node =>
     if strict_eq (Node.id node) nodeId
     then Node.with_data node (Data.spread (Node.data node) d)
     else node) <$> (App.nodes st !! i).
Proof. unfold App.updateNodeData. simpl. apply list_lookup_fmap. Qed.

(** A map that changes no element returns the collection. *)
Lemma updateNodeData_no_match nodeId d st :
  (forall node, node ∈ App.nodes st -> strict_eq (Node.id node) nodeId = false) ->
  App.updateNodeData nodeId d st = st.
Proof.
  intros H. rewrite (state_eta st) at 2.
  unfold App.updateNodeData, App.setNodes. f_equal.
  induction (App.nodes st) as [|node l IH]; csimpl; [done|].
  rewrite H by apply list_elem_of_here.
  f_equal. apply IH. intros n Hn. apply H. by apply list_elem_of_further.
Qed.

Lemma updateNodeData_null d st : App.updateNodeData None d st = st.
Proof. apply updateNodeData_no_match. intros. apply strict_eq_null. Qed.

(** The fields of a node that [updateNodeData] never writes. *)
Lemma updateNodeData_identity nodeId d st :
  Node.id <$> App.nodes (App.updateNodeData nodeId d st) = Node.id <$> App.nodes st
  /\ Node.type <$> App.nodes (App.updateNodeData nodeId d st) = Node.type <$> App.nodes st
  /\ Node.position <$> App.nodes (App.updateNodeData nodeId d st)
     = Node.position <$> App.nodes st.
Proof.
  unfold App.updateNodeData. simpl. rewrite <- !list_fmap_compose.
  repeat split; apply list_fmap_ext; intros _ node _; simpl;
    by destruct (strict_eq _ _).
Qed.

Lemma selectedNode_unselected st :
  App.selectedNodeId st = None -> App.selectedNode st = None.
Proof.
  intros H. unfold App.selectedNode. rewrite H.
  apply find_none_all. intros. apply strict_eq_null.
Qed.

(** The selected node after an update of the nodes that carry the
    selected id: the former selected node with the merged data. *)
Lemma selectedNode_updateNodeData d st :
  App.selectedNode (App.updateNodeData (App.selectedNodeId st) d st) =
  (fun node => Node.with_data node (Data.spread (Node.data node) d))
    <$> App.selectedNode st.
Proof.
  unfold App.selectedNode, App.updateNodeData. simpl.
  by apply (find_fmap_update
              (fun n => strict_eq (Node.id n) (App.selectedNodeId st))
              (fun node => Node.with_data node (Data.spread (Node.data node) d))).
Qed.

End Store.

(** ** Properties of [updateNodeData] *)

(** C1. [updateNodeData(x, d)] is a shallow merge with a frame: in a node
    whose id is [x] every key that [d] has takes the value [d] gives it (the
    whole [fields] array of [d], not a merge of the two arrays) and every key
    that [d] lacks keeps its value; a node whose id is not [x] is the same
    node afterwards. The collection keeps its length and its order. *)
Theorem updateNodeData_shallow_merge {Edge} (x : string) (d : Data.t)
    (st : App.state Edge) (i : nat) (node : Node.t) :
  App.nodes st !! i = Some node ->
  length (App.nodes (App.updateNodeData (Some x) d st)) = length (App.nodes st) /\
  exists node',
    App.nodes (App.updateNodeData (Some x) d st) !! i = Some node' /\
    (Node.id node <> x -> node' = node) /\
    (Node.id node = x ->
       (forall v, Data.label d = Some v -> Data.label (Node.data node') = Some v) /\
       (Data.label d = None ->
          Data.label (Node.data node') = Data.label (Node.data node)) /\
       (forall a, Data.fields d = Some a -> Data.fields (Node.data node') = Some a) /\
       (Data.fields d = None ->
          Data.fields (Node.data node') = Data.fields (Node.data node)) /\
       Node.id node' = Node.id node /\
       Node.type node' = Node.type node /\
       Node.position node' = Node.position node).
Proof.
  intros Hi. split.
  { unfold App.updateNodeData. simpl. apply length_fmap. }
  rewrite nodes_updateNodeData, Hi. simpl.
  destruct (strict_eq (Node.id node) (Some x)) eqn:E.
  - apply strict_eq_true in E. injection E as E.
    eexists. split; [reflexivity|]. split; [congruence|]. intros _. simpl.
    repeat split; try done.
    + by intros v ->.
    + by intros ->.
    + by intros a ->.
    + by intros ->.
  - apply strict_eq_false in E.
    exists node. split; [done|]. split; [done|]. intros Hx. destruct E. by rewrite Hx.
Qed.

(** C2. [updateNodeData] with an id that no node of the collection has:
    the call returns (the function is total) and the state, the node
    collection in particular, is the one before the call. *)
Theorem updateNodeData_unknown_id {Edge} (nodeId : option string) (d : Data.t)
    (st : App.state Edge) :
  (forall node, node ∈ App.nodes st -> Some (Node.id node) <> nodeId) ->
  App.updateNodeData nodeId d st = st.
Proof.
  intros H. apply updateNodeData_no_match. intros node Hin.
  apply strict_eq_false. intros ->. by apply (H node).
Qed.

(** ** Properties of the editing protocol *)

(** C4. With no active node id, each of the four editing operations
    (rename, add field, update field, remove field) returns normally and
    leaves the state as it was: the node collection and the edge collection
    are unchanged. *)
Theorem mutation_without_selection {Edge} (st : App.state Edge)
    (newName : string) (index : nat) (key value : string) :
  App.selectedNodeId st = None ->
  (App.onNameChange newName st = st /\
   App.onAddField st = st /\
   App.onUpdateField index key value st = Some st /\
   App.onRemoveField index st = Some st) /\
  forall st',
    st' = App.onNameChange newName st \/ st' = App.onAddField st \/
    App.onUpdateField index key value st = Some st' \/
    App.onRemoveField index st = Some st' ->
    App.nodes st' = App.nodes st /\ App.edges st' = App.edges st.
Proof.
  intros Hsel.
  assert (App.onNameChange newName st = st /\
          App.onAddField st = st /\
          App.onUpdateField index key value st = Some st /\
          App.onRemoveField index st = Some st) as H.
  { unfold App.onNameChange, App.onAddField, App.onUpdateField, App.onRemoveField.
    rewrite (selectedNode_unselected st Hsel), Hsel.
    by rewrite updateNodeData_null. }
  split; [exact H|].
  destruct H as (H1 & H2 & H3 & H4).
  intros st' [->|[->|[H|H]]].
  - by rewrite H1.
  - by rewrite H2.
  - rewrite H3 in H. by injection H as <-.
  - rewrite H4 in H. by injection H as <-.
Qed.

(** C6. Remove field: for a selected node with field sequence [fields]
    and an index [i] below its length, [onRemoveField i] returns and the
    selected node then holds the slots of [fields] that are not empty, the
    one at [i] apart, in their order. When [fields] has no empty slot this is
    [fields] without its element at [i]: one element fewer, the elements
    before [i] where they were and those after [i] one position down. *)
Theorem onRemoveField_deletes {Edge} (st : App.state Edge) (node : Node.t)
    (fields : Js.array) (i : nat) :
  App.selectedNode st = Some node ->
  Data.fields (Node.data node) = Some fields ->
  i < length fields ->
  exists st' node' fields',
    App.onRemoveField i st = Some st' /\
    App.selectedNode st' = Some node' /\
    Data.fields (Node.data node') = Some fields' /\
    fields' = filter is_Some (<[i := None]> fields) /\
    (dense fields ->
       fields' = delete i fields /\
       length fields' = length fields - 1 /\
       (forall j, j < i -> fields' !! j = fields !! j) /\
       (forall j, i <= j -> fields' !! j = fields !! S j)).
Proof.
  intros Hsel Hf Hi. unfold App.onRemoveField. rewrite Hsel, Hf.
  eexists _, _, _. split; [reflexivity|].
  rewrite selectedNode_updateNodeData, Hsel. simpl. split; [reflexivity|].
  simpl. split; [reflexivity|]. split; [apply filter_clears|].
  intros Hd. rewrite filter_delete by done. split; [done|].
  split; [by apply length_delete, lookup_lt_is_Some|].
  split; intros j Hj.
  - by apply list_lookup_delete_lt.
  - by apply list_lookup_delete_ge.
Qed.


(** C10. Update field with an index at or beyond the end: for a selected
    node whose field sequence has length [n <= i], [i] being an array index
    (below 2^32 - 1), [onUpdateField i key value] returns, the node collection
    is no longer the one before, and the selected node's sequence has length
    [i + 1]; its slot [i] holds an object with the single attribute [key],
    valued [value]; the indices below [n] read as before and the slots from
    [n] up to [i] are empty. *)
Theorem onUpdateField_out_of_range {Edge} (st : App.state Edge) (node : Node.t)
    (fields : Js.array) (i : nat) (key value : string) :
  App.selectedNode st = Some node ->
  Data.fields (Node.data node) = Some fields ->
  length fields <= i ->
  (N.of_nat i < 4294967295)%N ->
  exists st' node' fields',
    App.onUpdateField i key value st = Some st' /\
    App.nodes st' <> App.nodes st /\
    App.selectedNode st' = Some node' /\
    Data.fields (Node.data node') = Some fields' /\
    length fields' = S i /\
    fields' !! i = Some (Some (Js.Obj {[ key := value ]})) /\
    (forall j, j < length fields -> Js.get fields' j = Js.get fields j) /\
    (forall j, length fields <= j < i -> fields' !! j = Some None).
Proof.
  intros Hsel Hf Hi Hx%is_index_spec. unfold App.onUpdateField. rewrite Hsel, Hf.
  rewrite (get_out_of_range (Js.spread fields) i) by (by rewrite spread_length).
  simpl. rewrite insert_empty.
  set (fields' := Js.set (Js.spread fields) i (Js.Obj {[ key := value ]})).
  set (st' := App.updateNodeData _ _ st).
  assert (length fields' = S i) as Hlen.
  { apply set_length_out; [by rewrite spread_length|done]. }
  assert (App.selectedNode st' =
          Some (Node.with_data node
                  (Data.spread (Node.data node) (Data.make None (Some fields'))))) as Hsel'.
  { subst st'. by rewrite selectedNode_updateNodeData, Hsel. }
  eexists st', _, fields'. split; [done|]. split; [|split; [exact Hsel'|]].
  - intros Heq. unfold App.selectedNode in Hsel', Hsel.
    replace (App.selectedNodeId st') with (App.selectedNodeId st) in Hsel' by done.
    rewrite Heq, Hsel in Hsel'. injection Hsel' as Hn.
    apply (f_equal (fun n => Data.fields (Node.data n))) in Hn.
    simpl in Hn. rewrite Hf in Hn. injection Hn as Hn.
    rewrite Hn in Hi. lia.
  - split; [done|]. split; [done|]. split; [apply set_lookup; by right|]. split.
    + intros j Hj. unfold Js.get at 1. subst fields'.
      rewrite set_lookup_below by (rewrite ?spread_length; lia).
      fold (Js.get (Js.spread fields) j). apply get_spread.
    + intros j [Hj1 Hj2]. subst fields'.
      apply set_lookup_gap; rewrite ?spread_length; (lia || done).
Qed.

(** ** Identity of nodes under the editing operations *)

Section Identity.
Context {Edge : Type}.
Implicit Types (st : App.state Edge).

(** Each editing operation either leaves the state alone or is one
    [updateNodeData] on the selected id. *)
Lemma onNameChange_shape newName st :
  exists d, App.onNameChange newName st
            = App.updateNodeData (App.selectedNodeId st) d st.
Proof. by eexists. Qed.

Lemma onAddField_shape st :
  App.onAddField st = st \/
  exists d, App.onAddField st = App.updateNodeData (App.selectedNodeId st) d st.
Proof.
  unfold App.onAddField. destruct (App.selectedNode st); [right|left]; eauto.
Qed.

Lemma onUpdateField_shape index key value st st' :
  App.onUpdateField index key value st = Some st' ->
  st' = st \/ exists d, st' = App.updateNodeData (App.selectedNodeId st) d st.
Proof.
  unfold App.onUpdateField. destruct (App.selectedNode st) as [node|].
  - destruct (Data.fields (Node.data node)); [|done].
    intros [= <-]. right. eauto.
  - intros [= <-]. by left.
Qed.

Lemma onRemoveField_shape index st st' :
  App.onRemoveField index st = Some st' ->
  st' = st \/ exists d, st' = App.updateNodeData (App.selectedNodeId st) d st.
Proof.
  unfold App.onRemoveField. destruct (App.selectedNode st) as [node|].
  - destruct (Data.fields (Node.data node)); [|done].
    intros [= <-]. right. eauto.
  - intros [= <-]. by left.
Qed.

Lemma fmap_eq_lookup {A B} (f : A -> B) (l l' : list A) i a :
  f <$> l' = f <$> l -> l !! i = Some a ->
  exists a', l' !! i = Some a' /\ f a' = f a.
Proof.
  intros H Hi. apply (f_equal (fun k => k !! i)) in H.
  rewrite !list_lookup_fmap, Hi in H.
  destruct (l' !! i) as [a'|]; [|done]. injection H as H. eauto.
Qed.

End Identity.

(** C9. The id and the kind of every node are the same before and after
    [updateNodeData], rename, add field, update field and remove field,
    whichever node the call targets; the position is not touched by these
    calls either, so they change nothing of a node but its [data] (label and
    fields). The collection keeps its length and its order. *)
Theorem identity_preserved {Edge} (st st' : App.state Edge)
    (nodeId : option string) (d : Data.t) (newName : string)
    (index : nat) (key value : string) :
  st' = App.updateNodeData nodeId d st \/
  st' = App.onNameChange newName st \/
  st' = App.onAddField st \/
  App.onUpdateField index key value st = Some st' \/
  App.onRemoveField index st = Some st' ->
  length (App.nodes st') = length (App.nodes st) /\
  forall i node,
    App.nodes st !! i = Some node ->
    exists node',
      App.nodes st' !! i = Some node' /\
      Node.id node' = Node.id node /\
      Node.type node' = Node.type node /\
      Node.position node' = Node.position node.
Proof.
  intros H.
  assert (st' = st \/ exists x e, st' = App.updateNodeData x e st) as Hshape.
  { destruct H as [->|[->|[->|[H|H]]]].
    - right. eauto.
    - right. destruct (onNameChange_shape newName st) as [e He]. eauto.
    - destruct (onAddField_shape st) as [He|[e He]]; [by left|right; eauto].
    - apply onUpdateField_shape in H as [He|[e He]]; [by left|right; eauto].
    - apply onRemoveField_shape in H as [He|[e He]]; [by left|right; eauto]. }
  clear H. destruct Hshape as [->|(x & e & ->)].
  { split; [done|]. intros i node Hi. eauto. }
  destruct (updateNodeData_identity x e st) as (Hid & Hty & Hpos).
  split.
  { apply (f_equal length) in Hid. by rewrite !length_fmap in Hid. }
  intros i node Hi.
  destruct (fmap_eq_lookup Node.id _ _ i node Hid Hi) as (n1 & H1 & E1).
  destruct (fmap_eq_lookup Node.type _ _ i node Hty Hi) as (n2 & H2 & E2).
  destruct (fmap_eq_lookup Node.position _ _ i node Hpos Hi) as (n3 & H3 & E3).
  exists n1. rewrite H1 in H2, H3. injection H2 as <-. injection H3 as <-. done.
Qed.

(** ** The selection *)

(** C3. Selection transitions: a click on a node selects that node
    whatever was selected before, so a click on [a] followed by a click on [b]
    leaves [b] selected and not [a]; a click on the pane leaves nothing
    selected; a drop that creates a node (a payload is present and the flow
    instance has been set) appends that node, whose id is the string of the
    counter, and leaves it selected. *)
Theorem selection_transitions {Edge} (st : App.state Edge) (a b : Node.t)
    (type : string) (clientX clientY : Z) (inst : ReactFlowInstance) :
  App.selectedNodeId (App.onNodeClick a st) = Some (Node.id a) /\
  App.selectedNodeId (App.onNodeClick b (App.onNodeClick a st)) = Some (Node.id b) /\
  (Node.id a <> Node.id b ->
   App.selectedNodeId (App.onNodeClick b (App.onNodeClick a st)) <> Some (Node.id a)) /\
  App.selectedNodeId (App.onPaneClick st) = None /\
  (type <> EmptyString ->
   App.reactFlowInstance st = Some inst ->
   exists st' newNode,
     App.onDrop type clientX clientY st = Some st' /\
     App.nodes st' = App.nodes st ++ [newNode] /\
     Node.id newNode = Js.to_string (App.id st) /\
     App.selectedNodeId st' = Some (Node.id newNode)).
Proof.
  split; [done|]. split; [done|]. split; [|split; [done|]].
  - simpl. intros Hne [= E]. by apply Hne.
  - intros Hty Hinst. unfold App.onDrop, Js.falsy.
    rewrite decide_False by done. rewrite Hinst. simpl.
    eexists _, _. split; [reflexivity|]. by simpl.
Qed.

(** ** The identity generator *)

Section Identifiers.

Lemma parse_to_string n : Js.parse_nat (Js.to_string n) = Some n.
Proof.
  unfold Js.parse_nat, Js.to_string. rewrite NilZero.usu.
  - simpl. f_equal. apply DecimalN.Unsigned.of_to.
  - destruct n as [|p]; [done|]. apply DecimalPos.Unsigned.to_uint_nonnil.
Qed.

Lemma to_string_inj n m : Js.to_string n = Js.to_string m -> n = m.
Proof.
  intros H. apply (f_equal Js.parse_nat) in H.
  rewrite !parse_to_string in H. by injection H.
Qed.

Lemma getIds_length k id : length (getIds k id) = k.
Proof. revert id. induction k as [|k IH]; intros id; simpl; [done|]. by rewrite IH. Qed.

Lemma incr_below n : (n < 9007199254740992)%N -> Js.incr n = N.succ n.
Proof. intros H. unfold Js.incr. by rewrite (proj2 (N.ltb_lt _ _) H). Qed.

Lemma incr_top n : (9007199254740992 <= n)%N -> Js.incr n = n.
Proof. intros H. unfold Js.incr. by rewrite (proj2 (N.ltb_ge _ _) H). Qed.

Lemma incr_le n : (n <= Js.incr n)%N.
Proof. unfold Js.incr. destruct (N.ltb_spec n 9007199254740992); lia. Qed.

(** The counter after [j] calls: it grows by one per call up to 2^53 and
    stays there. *)
Lemma iter_incr (j id : N) :
  (id <= 9007199254740992)%N ->
  N.iter j Js.incr id = N.min (id + j) 9007199254740992.
Proof.
  intros Hid. induction j as [|j IH] using N.peano_ind.
  - simpl. lia.
  - rewrite N.iter_succ, IH. unfold Js.incr.
    destruct (N.ltb_spec (N.min (id + j) 9007199254740992) 9007199254740992); lia.
Qed.

(** While the counter counts exactly, the call number [j] (from 0) returns
    the digits of [id + j]. *)
Lemma getIds_lookup k id j :
  j < k -> (id + N.of_nat j <= 9007199254740992)%N ->
  getIds k id !! j = Some (Js.to_string (id + N.of_nat j)).
Proof.
  revert id j. induction k as [|k IH]; intros id j Hj Hb; [lia|].
  cbn [getIds App.getId]. destruct j as [|j].
  - cbn. by rewrite N.add_0_r.
  - change ((Js.to_string id :: getIds k (Js.incr id)) !! S j)
      with (getIds k (Js.incr id) !! j).
    rewrite incr_below by lia. rewrite IH by lia. do 2 f_equal. lia.
Qed.

Lemma getIds_NoDup k id :
  (id + N.of_nat k <= 9007199254740993)%N -> NoDup (getIds k id).
Proof.
  intros Hb. apply NoDup_alt. intros j1 j2 s H1 H2.
  assert (j1 < k) as L1.
  { apply lookup_lt_Some in H1. by rewrite getIds_length in H1. }
  assert (j2 < k) as L2.
  { apply lookup_lt_Some in H2. by rewrite getIds_length in H2. }
  rewrite getIds_lookup in H1 by lia. rewrite getIds_lookup in H2 by lia.
  injection H1 as <-. injection H2 as H2. apply to_string_inj in H2. lia.
Qed.

Context {Connection Edge : Type}.
Variable addEdge : Connection -> list Edge -> list Edge.
Implicit Types (st : App.state Edge).

Lemma ids_fresh_same st st' :
  Node.id <$> App.nodes st' = Node.id <$> App.nodes st ->
  App.id st' = App.id st ->
  ids_fresh st -> ids_fresh st'.
Proof. intros Hn Hc (ns & H1 & H2 & H3). exists ns. by rewrite Hn, Hc. Qed.

Lemma ids_fresh_updateNodeData nodeId d st :
  ids_fresh st -> ids_fresh (App.updateNodeData nodeId d st).
Proof.
  apply ids_fresh_same; [|done]. apply updateNodeData_identity.
Qed.

(** A drop below 2^53 names the new node by the counter and advances it. *)
Lemma ids_fresh_onDrop type clientX clientY st st' :
  App.onDrop type clientX clientY st = Some st' ->
  (App.id st < 9007199254740992)%N ->
  ids_fresh st -> ids_fresh st'.
Proof.
  unfold App.onDrop. destruct (Js.falsy type); [by intros [= <-]|].
  destruct (App.reactFlowInstance st) as [inst|]; [|done].
  cbn [App.getId]. intros [= <-] Hb (ns & H1 & H2 & H3).
  exists (ns ++ [App.id st]). cbn. rewrite incr_below by done. split; [|split].
  - by rewrite !fmap_app, H1.
  - apply NoDup_app. split; [done|]. split; [|apply NoDup_singleton].
    intros n Hn ->%list_elem_of_singleton.
    rewrite Forall_forall in H3. specialize (H3 _ Hn). lia.
  - apply Forall_app. split.
    + eapply Forall_impl; [exact H3|]. simpl. lia.
    + apply Forall_singleton. lia.
Qed.

(** The counter never goes down. *)
Lemma id_step_le e st : (App.id st <= App.id (App.step addEdge st e))%N.
Proof.
  unfold App.step.
  destruct (App.handle addEdge e st) as [st'|] eqn:E; simpl; [|done].
  destruct e; simpl in E; try (injection E as <-; done).
  - revert E. unfold App.onDrop. destruct (Js.falsy type); [by intros [= <-]|].
    destruct (App.reactFlowInstance st); [|done]. cbn [App.getId].
    intros [= <-]. cbn. apply incr_le.
  - injection E as <-. by destruct (onAddField_shape st) as [->|[d ->]].
  - by apply onUpdateField_shape in E as [->|[d ->]].
  - by apply onRemoveField_shape in E as [->|[d ->]].
Qed.

Lemma id_run_le es st : (App.id st <= App.id (App.run addEdge es st))%N.
Proof.
  revert st. induction es as [|e es IH]; intros st; [done|].
  simpl. etrans; [apply (id_step_le e)|apply IH].
Qed.

Lemma ids_fresh_step e st :
  (App.id st < 9007199254740992)%N ->
  ids_fresh st -> ids_fresh (App.step addEdge st e).
Proof.
  intros Hb H. unfold App.step.
  destruct (App.handle addEdge e st) as [st'|] eqn:E; simpl; [|done].
  destruct e; simpl in E.
  - injection E as <-. revert H. by apply ids_fresh_same.
  - injection E as <-. revert H. by apply ids_fresh_same.
  - by eapply ids_fresh_onDrop.
  - injection E as <-. revert H. by apply ids_fresh_same.
  - injection E as <-. revert H. by apply ids_fresh_same.
  - injection E as <-. by apply ids_fresh_updateNodeData.
  - injection E as <-.
    destruct (onAddField_shape st) as [->|[d ->]]; [done|].
    by apply ids_fresh_updateNodeData.
  - apply onUpdateField_shape in E as [->|[d ->]]; [done|].
    by apply ids_fresh_updateNodeData.
  - apply onRemoveField_shape in E as [->|[d ->]]; [done|].
    by apply ids_fresh_updateNodeData.
Qed.

Lemma ids_fresh_run es st :
  (App.id (App.run addEdge es st) < 9007199254740992)%N ->
  ids_fresh st -> ids_fresh (App.run addEdge es st).
Proof.
  revert st. induction es as [|e es IH]; intros st Hb H; [done|].
  simpl in *. apply IH; [done|].
  pose proof (id_step_le e st). pose proof (id_run_le es (App.step addEdge st e)).
  apply ids_fresh_step; [lia|done].
Qed.

Lemma ids_fresh_initial : ids_fresh (App.initial : App.state Edge).
Proof.
  exists [1%N]. split; [done|]. split; [apply NoDup_singleton|].
  apply Forall_singleton. done.
Qed.

Lemma ids_fresh_NoDup st : ids_fresh st -> NoDup (Node.id <$> App.nodes st).
Proof.
  intros (ns & -> & H & _).
  exact (@NoDup_fmap_2 _ _ Js.to_string to_string_inj ns H).
Qed.

(** [onConnect] stores what the library's [addEdge] returns and has no
    test of its own. *)
Lemma onConnect_edges params st :
  App.edges (App.onConnect addEdge params st) = addEdge params (App.edges st)
  /\ App.nodes (App.onConnect addEdge params st) = App.nodes st.
Proof. done. Qed.

End Identifiers.

(** C5. [getId], while the counter counts exactly: the strings returned
    by the first [k] calls after the first render, [k] being at most
    2^53 - 1, are pairwise distinct; read as decimal numbers the call number
    [j] (from 0) gives [2 + j], so the values start at 2 and increase
    strictly. As a consequence, whatever events the component has handled
    since the first render (drops and all the others), as long as the counter
    is still below 2^53 the ids of the nodes, the seed node "1" included, are
    pairwise distinct. *)
Theorem getId_fresh_increasing {Connection Edge : Type}
    (addEdge : Connection -> list Edge -> list Edge)
    (k : nat) (es : list (App.event (Connection := Connection))) :
  (N.of_nat k <= 9007199254740991)%N ->
  (App.id (App.run addEdge es (App.initial : App.state Edge))
   < 9007199254740992)%N ->
  NoDup (getIds k (App.id (App.initial : App.state Edge))) /\
  (forall j, j < k ->
     exists s, getIds k (App.id (App.initial : App.state Edge)) !! j = Some s /\
               Js.parse_nat s = Some (2 + N.of_nat j)%N) /\
  (forall j1 j2 s1 s2,
     j1 < j2 ->
     getIds k (App.id (App.initial : App.state Edge)) !! j1 = Some s1 ->
     getIds k (App.id (App.initial : App.state Edge)) !! j2 = Some s2 ->
     exists n1 n2,
       Js.parse_nat s1 = Some n1 /\ Js.parse_nat s2 = Some n2 /\ (n1 < n2)%N) /\
  NoDup (Node.id <$> App.nodes (App.run addEdge es App.initial)).
Proof.
  intros Hk Hb.
  assert (App.id (App.initial : App.state Edge) = 2%N) as -> by reflexivity.
  split; [apply getIds_NoDup; lia|]. split; [|split].
  - intros j Hj. eexists. split; [apply getIds_lookup; lia|]. apply parse_to_string.
  - intros j1 j2 s1 s2 Hlt H1 H2.
    assert (j2 < k) as L2.
    { apply lookup_lt_Some in H2. by rewrite getIds_length in H2. }
    rewrite getIds_lookup in H1 by lia. rewrite getIds_lookup in H2 by lia.
    injection H1 as <-. injection H2 as <-.
    eexists _, _. rewrite !parse_to_string. split; [done|]. split; [done|]. lia.
  - apply ids_fresh_NoDup, ids_fresh_run; [done|apply ids_fresh_initial].
Qed.

(** ** Field sequences without empty slots *)

Section Dense.
Context {Connection Edge : Type}.
Variable addEdge : Connection -> list Edge -> list Edge.
Implicit Types (st : App.state Edge).

Lemma filter_from_dense f k a : dense (Js.filter_from f k a).
Proof.
  revert k. induction a as [|[e|] a IH]; intros k; simpl.
  - constructor.
  - destruct (f e k); [constructor; eauto|]; apply IH.
  - apply IH.
Qed.

Lemma set_dense a i e : dense a -> i < length a -> dense (Js.set a i e).
Proof.
  intros Hd Hi. unfold Js.set. rewrite decide_True by done.
  apply Forall_insert; eauto.
Qed.

(** Storing a dense sequence, or none, keeps the collection dense. *)
Lemma fields_dense_updateNodeData nodeId d st :
  dense (default [] (Data.fields d)) ->
  fields_dense st -> fields_dense (App.updateNodeData nodeId d st).
Proof.
  intros Hd H. unfold fields_dense, App.updateNodeData. simpl.
  apply Forall_fmap. eapply Forall_impl; [exact H|].
  intros node Hn. simpl. destruct (strict_eq _ _); [|done].
  simpl. by destruct (Data.fields d).
Qed.

Lemma fields_dense_selected st node :
  fields_dense st -> App.selectedNode st = Some node ->
  dense (default [] (Data.fields (Node.data node))).
Proof.
  intros H Hsel. apply find_some in Hsel as [Hin _].
  unfold fields_dense in H. rewrite Forall_forall in H.
  apply H. by apply list_elem_of_In.
Qed.

Lemma fields_dense_step e st :
  in_range st e -> fields_dense st -> fields_dense (App.step addEdge st e).
Proof.
  intros He H. unfold App.step.
  destruct (App.handle addEdge e st) as [st'|] eqn:E; simpl; [|done].
  destruct e; simpl in E, He; try (by injection E as <-).
  - revert E. unfold App.onDrop. destruct (Js.falsy type); [by intros [= <-]|].
    destruct (App.reactFlowInstance st); [|done]. simpl. intros [= <-].
    unfold fields_dense. simpl. apply Forall_app. split; [done|].
    apply Forall_singleton. constructor.
  - injection E as <-. by apply fields_dense_updateNodeData; [constructor|].
  - injection E as <-. unfold App.onAddField.
    destruct (App.selectedNode st) as [node|]; [|done].
    apply fields_dense_updateNodeData; [|done]. simpl.
    apply Forall_app. split; [apply spread_dense|].
    apply Forall_singleton. eauto.
  - revert E. unfold App.onUpdateField.
    destruct (App.selectedNode st) as [node|] eqn:Hsel; [|by intros [= <-]].
    destruct (Data.fields (Node.data node)) as [fields|]; [|done].
    intros [= <-]. apply fields_dense_updateNodeData; [|done]. simpl.
    apply set_dense; [apply spread_dense|]. by rewrite spread_length.
  - revert E. unfold App.onRemoveField.
    destruct (App.selectedNode st) as [node|]; [|by intros [= <-]].
    destruct (Data.fields (Node.data node)) as [fields|]; [|done].
    intros [= <-]. apply fields_dense_updateNodeData; [|done]. simpl.
    apply filter_from_dense.
Qed.

(** From the first render on, as long as updates address existing fields,
    no field sequence has an empty slot. *)
Lemma fields_dense_run es st :
  run_in_range addEdge es st -> fields_dense st ->
  fields_dense (App.run addEdge es st).
Proof.
  revert st. induction es as [|e es IH]; intros st Hr H; [done|].
  destruct Hr as [He Hr]. simpl. apply IH; [done|]. by apply fields_dense_step.
Qed.

Lemma fields_dense_initial : fields_dense (App.initial : App.state Edge).
Proof. repeat constructor; eauto. Qed.

End Dense.

(** ** The statements at concrete states *)

Lemma updateNodeData_shallow_merge_witness :
  App.nodes Sample.dropped !! 1 = Some Sample.concept /\
  exists node',
    App.nodes (App.updateNodeData (Some "2") Sample.rename Sample.dropped) !! 1
      = Some node' /\
    Data.label (Node.data node') = Some "Vehicle" /\
    Data.fields (Node.data node') = Some [].
Proof.
  assert (App.nodes Sample.dropped !! 1 = Some Sample.concept) as H by reflexivity.
  split; [exact H|].
  destruct (updateNodeData_shallow_merge "2" Sample.rename Sample.dropped 1
              Sample.concept H) as (_ & node' & Hn & _ & Hx).
  destruct (Hx eq_refl) as (Hl & _ & _ & Hf & _).
  exists node'. split; [exact Hn|]. split.
  - apply Hl. reflexivity.
  - rewrite Hf; reflexivity.
Defined.

Lemma updateNodeData_unknown_id_witness :
  (forall node, node ∈ App.nodes Sample.dropped -> Some (Node.id node) <> Some "7") /\
  App.updateNodeData (Some "7") Sample.rename Sample.dropped = Sample.dropped.
Proof.
  assert (forall node, node ∈ App.nodes Sample.dropped ->
                       Some (Node.id node) <> Some "7") as H.
  { intros node Hin. apply list_elem_of_In in Hin. vm_compute in Hin.
    destruct Hin as [<-|[<-|[]]]; discriminate. }
  split; [exact H|]. exact (updateNodeData_unknown_id _ _ _ H).
Defined.

Lemma selection_transitions_witness :
  "Concept" <> EmptyString /\
  App.reactFlowInstance Sample.ready = Some Sample.instance /\
  App.selectedNodeId (App.onNodeClick Sample.concept
                        (App.onNodeClick Sample.person Sample.dropped)) = Some "2" /\
  exists st' newNode,
    App.onDrop "Concept" 100 100 Sample.ready = Some st' /\
    App.nodes st' = App.nodes Sample.ready ++ [newNode] /\
    Node.id newNode = "2" /\
    App.selectedNodeId st' = Some (Node.id newNode).
Proof.
  assert ("Concept" <> EmptyString) as H1 by discriminate.
  assert (App.reactFlowInstance Sample.ready = Some Sample.instance) as H2
    by reflexivity.
  split; [exact H1|]. split; [exact H2|]. split.
  - exact (proj1 (proj2 (selection_transitions Sample.dropped Sample.person
                           Sample.concept EmptyString 0 0 Sample.instance))).
  - destruct (selection_transitions Sample.ready Sample.person Sample.concept
                "Concept" 100 100 Sample.instance) as (_ & _ & _ & _ & H).
    exact (H H1 H2).
Defined.

Lemma mutation_without_selection_witness :
  App.selectedNodeId Sample.unselected = None /\
  App.onNameChange "Vehicle" Sample.unselected = Sample.unselected /\
  App.onAddField Sample.unselected = Sample.unselected /\
  App.onUpdateField 0 "name" "age" Sample.unselected = Some Sample.unselected /\
  App.onRemoveField 0 Sample.unselected = Some Sample.unselected.
Proof.
  assert (App.selectedNodeId Sample.unselected = None) as H by reflexivity.
  split; [exact H|].
  exact (proj1 (mutation_without_selection Sample.unselected "Vehicle" 0
                  "name" "age" H)).
Defined.

Lemma getId_fresh_increasing_witness :
  (N.of_nat 3 <= 9007199254740991)%N /\
  (App.id (App.run Case.noEdge Case.drops App.initial) < 9007199254740992)%N /\
  getIds 3 (App.id (App.initial : Sample.state)) = ["2"; "3"; "4"] /\
  NoDup (getIds 3 (App.id (App.initial : Sample.state))) /\
  NoDup (Node.id <$> App.nodes (App.run Case.noEdge Case.drops App.initial)).
Proof.
  assert (N.of_nat 3 <= 9007199254740991)%N as Hk by (vm_compute; discriminate).
  assert (App.id (App.run Case.noEdge Case.drops App.initial)
          < 9007199254740992)%N as Hb by (vm_compute; reflexivity).
  split; [exact Hk|]. split; [exact Hb|]. split; [reflexivity|].
  destruct (getId_fresh_increasing Case.noEdge 3 Case.drops Hk Hb)
    as (H1 & _ & _ & H2).
  split; [exact H1 | exact H2].
Defined.

(** After 2^53 - 2 calls the counter is 2^53, and there [getId] returns the
    same string call after call. *)
Lemma getId_repeats :
  N.iter 9007199254740990 (fun id => snd (App.getId id))
    (App.id (App.initial : Sample.state)) = 9007199254740992%N /\
  getIds 2 9007199254740992 = ["9007199254740992"; "9007199254740992"] /\
  ~ NoDup (getIds 2 9007199254740992).
Proof.
  split; [|split].
  - change (fun id => snd (App.getId id)) with Js.incr.
    change (App.id (App.initial : Sample.state)) with 2%N.
    rewrite iter_incr by (vm_compute; discriminate). reflexivity.
  - vm_compute. reflexivity.
  - replace (getIds 2 9007199254740992)
      with ["9007199254740992"; "9007199254740992"] by (vm_compute; reflexivity).
    intros H. apply NoDup_cons in H as [H _]. apply H, list_elem_of_here.
Qed.

Lemma onRemoveField_deletes_witness :
  App.selectedNode Sample.clicked = Some Sample.person /\
  exists st' node',
    App.onRemoveField 1 Sample.clicked = Some st' /\
    App.selectedNode st' = Some node' /\
    Data.fields (Node.data node') = Some [Some Sample.firstName; Some Sample.age].
Proof.
  assert (App.selectedNode Sample.clicked = Some Sample.person) as H1 by reflexivity.
  assert (dense [Some Sample.firstName; Some Sample.lastName; Some Sample.age]) as H2.
  { repeat constructor; eexists; reflexivity. }
  split; [exact H1|].
  destruct (onRemoveField_deletes Sample.clicked Sample.person
              [Some Sample.firstName; Some Sample.lastName; Some Sample.age] 1
              H1 eq_refl ltac:(simpl; lia))
    as (st' & node' & fields' & Ha & Hb & Hc & _ & Hd).
  exists st', node'. split; [exact Ha|]. split; [exact Hb|].
  rewrite Hc. f_equal. exact (proj1 (Hd H2)).
Defined.

(** The field sequence with two empty slots that an update beyond the end
    leaves has length 3; removing index 0 leaves one slot, not two. *)
Lemma onRemoveField_sparse :
  (Node.data <$> App.selectedNode Case.sparse)
  = Some (Data.make (Some "New Concept")
            (Some [None; None; Some (Js.Obj {[ "name" := "age" ]})])) /\
  (App.onRemoveField 0 Case.sparse ≫= fun st' => Node.data <$> App.selectedNode st')
  = Some (Data.make (Some "New Concept")
            (Some [Some (Js.Obj {[ "name" := "age" ]})])) /\
  length [Some (Js.Obj {[ "name" := "age" ]})]
  <> length [None; None; Some (Js.Obj {[ "name" := "age" ]})] - 1.
Proof.
  split; [vm_compute; reflexivity|]. split; [vm_compute; reflexivity|].
  simpl. lia.
Qed.


Lemma identity_preserved_witness :
  exists node',
    App.nodes (App.onAddField Sample.dropped) !! 1 = Some node' /\
    Node.id node' = "2" /\ Node.type node' = "concerto".
Proof.
  destruct (identity_preserved Sample.dropped (App.onAddField Sample.dropped)
              None Sample.rename EmptyString 0 EmptyString EmptyString
              (or_intror (or_intror (or_introl eq_refl)))) as (_ & H).
  destruct (H 1 Sample.concept eq_refl) as (node' & Ha & Hb & Hc & _).
  exists node'. split; [exact Ha|]. split; [exact Hb|exact Hc].
Defined.

Lemma onUpdateField_out_of_range_witness :
  App.selectedNode Sample.clicked = Some Sample.person /\
  (N.of_nat 5 < 4294967295)%N /\
  exists st' node' fields',
    App.onUpdateField 5 "name" "street" Sample.clicked = Some st' /\
    App.selectedNode st' = Some node' /\
    Data.fields (Node.data node') = Some fields' /\
    length fields' = 6 /\
    fields' !! 5 = Some (Some (Js.Obj {[ "name" := "street" ]})) /\
    fields' !! 3 = Some None /\ fields' !! 4 = Some None.
Proof.
  assert (App.selectedNode Sample.clicked = Some Sample.person) as H1 by reflexivity.
  assert (N.of_nat 5 < 4294967295)%N as H2 by (vm_compute; reflexivity).
  split; [exact H1|]. split; [exact H2|].
  destruct (onUpdateField_out_of_range Sample.clicked Sample.person
              [Some Sample.firstName; Some Sample.lastName; Some Sample.age] 5
              "name" "street" H1 eq_refl ltac:(simpl; lia) H2)
    as (st' & node' & fields' & Ha & _ & Hb & Hc & Hd & He & _ & Hf).
  exists st', node', fields'. repeat split; try assumption.
  - apply Hf. simpl. lia.
  - apply Hf. simpl. lia.
Defined.

(** An index that is not an array index: the update stores a copy of the
    sequence with its slots as they were, here the empty sequence, and not a
    sequence of length [i + 1]. *)
Lemma onUpdateField_beyond_index :
  (Node.data <$> App.selectedNode Sample.dropped)
  = Some (Data.make (Some "New Concept") (Some [])) /\
  (N.of_nat (N.to_nat 4294967295) = 4294967295)%N /\
  (App.onUpdateField (N.to_nat 4294967295) "name" "age" Sample.dropped
     ≫= fun st' => Node.data <$> App.selectedNode st')
  = Some (Data.make (Some "New Concept") (Some [])) /\
  length ([] : Js.array) <> S (N.to_nat 4294967295).
Proof.
  split; [reflexivity|]. split; [apply N2Nat.id|].
  split; [|exact (Nat.neq_0_succ _)].
  assert (Js.is_index (N.to_nat 4294967295) = false) as Hx.
  { unfold Js.is_index. rewrite N2Nat.id. reflexivity. }
  revert Hx. generalize (N.to_nat 4294967295). intros i Hx.
  unfold App.onUpdateField.
  change (App.selectedNode Sample.dropped) with (Some Sample.concept).
  cbn [Node.data Data.fields Sample.concept].
  rewrite (set_beyond (Js.spread []) i _ (Nat.le_0_l i) Hx).
  reflexivity.
Qed.

(** ** The editing scenario, step by step *)

(** A drop on the first render, before [onInit], throws: the flow
    instance is still [null]. A drop without payload is ignored. *)
Example drop_before_init :
  App.onDrop "Concept" 100 100 (App.initial : Sample.state) = None
  /\ App.onDrop EmptyString 100 100 (App.initial : Sample.state) = Some App.initial.
Proof. split; reflexivity. Qed.

(** Drop of a "Concept": node "2", labelled "New Concept", no field,
    selected. *)
Example scenario_drop :
  App.initialNodes = [Sample.person]
  /\ App.nodes Sample.dropped = [Sample.person; Sample.concept]
  /\ App.selectedNodeId Sample.dropped = Some "2"
  /\ App.id Sample.dropped = 3%N.
Proof. repeat split; reflexivity. Qed.

(** Add field, name it "age", type it "Integer", remove it; node "1" keeps
    its three fields throughout. *)
Example scenario_fields :
  let s2 := App.onAddField Sample.dropped in
  let s3 := default s2 (App.onUpdateField 0 "name" "age" s2) in
  let s4 := default s3 (App.onUpdateField 0 "type" "Integer" s3) in
  let s5 := default s4 (App.onRemoveField 0 s4) in
  (Node.data <$> App.selectedNode s2) =
    Some (Data.make (Some "New Concept") (Some [Some App.newProp]))
  /\ (Node.data <$> App.selectedNode s3) =
    Some (Data.make (Some "New Concept")
            (Some [Some (Js.Obj {[ "type" := "String"; "name" := "age" ]})]))
  /\ (Node.data <$> App.selectedNode s4) =
    Some (Data.make (Some "New Concept") (Some [Some Sample.age]))
  /\ (Node.data <$> App.selectedNode s5) =
    Some (Data.make (Some "New Concept") (Some []))
  /\ App.nodes s5 !! 0 = Some Sample.person.
Proof. repeat split; vm_compute; reflexivity. Qed.

(** An update two slots beyond the end of an empty sequence leaves two
    empty slots; the removal that follows drops them as well, because
    [filter] does not visit empty slots. *)
Example sparse_fields :
  Js.set (Js.spread []) 2 (Js.Obj {[ "name" := "age" ]})
    = [None; None; Some (Js.Obj {[ "name" := "age" ]})]
  /\ Js.filter (fun _ j => negb (j =? 0))
       [None; None; Some (Js.Obj {[ "name" := "age" ]})]
     = [Some (Js.Obj {[ "name" := "age" ]})].
Proof. split; reflexivity. Qed.

(** ** Further properties of [updateNodeData] *)

Section Merge.
Context {Edge : Type}.
Implicit Types (st : App.state Edge) (node : Node.t).
Implicit Types (x y : option string) (d : Data.t).

Lemma pick_assoc {A} (a b c : option A) :
  Data.pick (Data.pick a b) c = Data.pick a (Data.pick b c).
Proof. by destruct c. Qed.

Lemma spread_assoc d1 d2 d3 :
  Data.spread (Data.spread d1 d2) d3 = Data.spread d1 (Data.spread d2 d3).
Proof. unfold Data.spread. simpl. by rewrite !pick_assoc. Qed.

Lemma pick_same {A} (a b : option A) :
  Data.pick (Data.pick a b) b = Data.pick a b.
Proof. by destruct b. Qed.

Lemma spread_same d1 d2 :
  Data.spread (Data.spread d1 d2) d2 = Data.spread d1 d2.
Proof. unfold Data.spread. simpl. by rewrite !pick_same. Qed.

Lemma node_eta node :
  Node.with_data node (Node.data node) = node.
Proof. by destruct node. Qed.

Lemma data_eta d : Data.make (Data.label d) (Data.fields d) = d.
Proof. by destruct d. Qed.

(** Two updates in a row, as one pass over the collection. *)
Lemma updateNodeData_twice x y d1 d2 st :
  App.updateNodeData y d2 (App.updateNodeData x d1 st) =
  App.setNodes
    (fun nds =>
       (fun node =>
          let node1 :=
            if strict_eq (Node.id node) x
            then Node.with_data node (Data.spread (Node.data node) d1)
            else node in
          if strict_eq (Node.id node) y
          then Node.with_data node1 (Data.spread (Node.data node1) d2)
          else node1) <$> nds) st.
Proof.
  unfold App.updateNodeData, App.setNodes. simpl. f_equal.
  rewrite <- list_fmap_compose. apply list_fmap_ext. intros _ node _. simpl.
  by destruct (strict_eq (Node.id node) x).
Qed.

Lemma strict_eq_both a x y :
  x <> y -> strict_eq a x = true -> strict_eq a y = false.
Proof.
  intros Hne Hx%strict_eq_true. apply strict_eq_false. congruence.
Qed.

(** With pairwise different ids, the nodes that carry an id are one. *)
Lemma unique_index (l : list Node.t) i j node node' :
  NoDup (Node.id <$> l) ->
  l !! i = Some node -> l !! j = Some node' ->
  Node.id node = Node.id node' -> i = j.
Proof.
  intros Hnd Hi Hj E. eapply NoDup_lookup; [exact Hnd| |].
  - rewrite list_lookup_fmap, Hi. reflexivity.
  - rewrite list_lookup_fmap, Hj. simpl. by rewrite E.
Qed.

(** Two updates of one id are the update by the merged object. *)
Lemma updateNodeData_merge x d1 d2 st :
  App.updateNodeData x d2 (App.updateNodeData x d1 st)
  = App.updateNodeData x (Data.spread d1 d2) st.
Proof.
  rewrite updateNodeData_twice. unfold App.updateNodeData, App.setNodes.
  f_equal. apply list_fmap_ext. intros _ node _. simpl.
  destruct (strict_eq (Node.id node) x); [|done].
  unfold Node.with_data. simpl. by rewrite spread_assoc.
Qed.

(** With pairwise different ids an update rewrites one position. *)
Lemma nodes_updateNodeData_insert (a : string) d i node st :
  NoDup (Node.id <$> App.nodes st) ->
  App.nodes st !! i = Some node ->
  Node.id node = a ->
  App.nodes (App.updateNodeData (Some a) d st)
  = <[i := Node.with_data node (Data.spread (Node.data node) d)]> (App.nodes st).
Proof.
  intros Hnd Hi Hx. apply list_eq. intros j.
  rewrite nodes_updateNodeData. destruct (decide (j = i)) as [->|Hne].
  - rewrite list_lookup_insert_eq by (by eapply lookup_lt_Some).
    rewrite Hi. simpl. rewrite (proj2 (strict_eq_true _ _)); [done|by rewrite Hx].
  - rewrite list_lookup_insert_ne by done.
    destruct (App.nodes st !! j) as [node'|] eqn:Hj; [|done]. simpl.
    rewrite (proj2 (strict_eq_false _ _)); [done|].
    intros [= E]. apply Hne. eapply unique_index; eauto. congruence.
Qed.

(** The selected node is an element of the collection and carries the
    selected id. *)
Lemma selectedNode_lookup st node :
  App.selectedNode st = Some node ->
  App.selectedNodeId st = Some (Node.id node) /\
  exists i, App.nodes st !! i = Some node.
Proof.
  intros H. apply find_some in H as [Hin E]. apply strict_eq_true in E.
  split; [done|]. by apply list_elem_of_lookup, list_elem_of_In.
Qed.

(** An update that gives the selected node the data it has, in a
    collection with pairwise different ids, changes nothing. *)
Lemma updateNodeData_same d node st :
  NoDup (Node.id <$> App.nodes st) ->
  App.selectedNode st = Some node ->
  Data.spread (Node.data node) d = Node.data node ->
  App.updateNodeData (App.selectedNodeId st) d st = st.
Proof.
  intros Hnd Hsel Hd. destruct (selectedNode_lookup st node Hsel) as [Hid [i Hi]].
  assert (App.nodes (App.updateNodeData (Some (Node.id node)) d st) = App.nodes st)
    as Hn.
  { rewrite (nodes_updateNodeData_insert (Node.id node) d i node st) by done.
    rewrite Hd, node_eta. by apply list_insert_id. }
  rewrite Hid. unfold App.updateNodeData, App.setNodes in *. simpl in Hn.
  rewrite Hn. symmetry. apply state_eta.
Qed.

End Merge.

(** X1. Updates of one id compose by merging their partial objects, the
    later one winning on a shared key; repeating an update changes nothing
    more; updates of two different ids can be swapped. *)
Theorem updateNodeData_compose {Edge} (st : App.state Edge)
    (x y : option string) (d1 d2 : Data.t) :
  App.updateNodeData x d2 (App.updateNodeData x d1 st)
    = App.updateNodeData x (Data.spread d1 d2) st
  /\ App.updateNodeData x d1 (App.updateNodeData x d1 st)
     = App.updateNodeData x d1 st
  /\ (x <> y ->
      App.updateNodeData x d1 (App.updateNodeData y d2 st)
      = App.updateNodeData y d2 (App.updateNodeData x d1 st)).
Proof.
  split; [|split].
  - apply updateNodeData_merge.
  - rewrite updateNodeData_twice. unfold App.updateNodeData, App.setNodes.
    f_equal. apply list_fmap_ext. intros _ node _. simpl.
    destruct (strict_eq (Node.id node) x); [|done].
    unfold Node.with_data. simpl. by rewrite spread_same.
  - intros Hne. rewrite !updateNodeData_twice. unfold App.setNodes.
    f_equal. apply list_fmap_ext. intros _ node _. simpl.
    destruct (strict_eq (Node.id node) x) eqn:Ex.
    + by rewrite (strict_eq_both _ x y Hne Ex).
    + by destruct (strict_eq (Node.id node) y).
Qed.

(** X2. When the ids of the collection are pairwise different,
    [updateNodeData(x, d)] is the replacement of one element: the node that
    carries [x] gets the merged data and the rest of the collection is the
    same list. *)
Theorem updateNodeData_unique {Edge} (st : App.state Edge) (x : string)
    (d : Data.t) (i : nat) (node : Node.t) :
  NoDup (Node.id <$> App.nodes st) ->
  App.nodes st !! i = Some node ->
  Node.id node = x ->
  App.nodes (App.updateNodeData (Some x) d st)
  = <[i := Node.with_data node (Data.spread (Node.data node) d)]> (App.nodes st)
  /\ App.nodes (App.updateNodeData (Some x) d st) !! i
     = Some (Node.with_data node (Data.spread (Node.data node) d))
  /\ forall j, j <> i ->
       App.nodes (App.updateNodeData (Some x) d st) !! j = App.nodes st !! j.
Proof.
  intros Hnd Hi Hx.
  rewrite (nodes_updateNodeData_insert x d i node st Hnd Hi Hx).
  split; [done|]. split.
  - apply list_lookup_insert_eq. by eapply lookup_lt_Some.
  - intros j Hj. by apply list_lookup_insert_ne.
Qed.

(** ** What the handlers leave alone *)

(** X3. The four editing operations reach only the nodes that carry the
    selected id: every other node is afterwards the same node at the same
    place, and the edges, the selection, the id counter and the flow instance
    are as before. *)
Theorem edits_reach_selected_only {Edge} (st st' : App.state Edge)
    (newName : string) (index : nat) (key value : string) :
  st' = App.onNameChange newName st \/
  st' = App.onAddField st \/
  App.onUpdateField index key value st = Some st' \/
  App.onRemoveField index st = Some st' ->
  (forall i node,
     App.nodes st !! i = Some node ->
     Some (Node.id node) <> App.selectedNodeId st ->
     App.nodes st' !! i = Some node) /\
  App.edges st' = App.edges st /\
  App.selectedNodeId st' = App.selectedNodeId st /\
  App.id st' = App.id st /\
  App.reactFlowInstance st' = App.reactFlowInstance st.
Proof.
  intros H.
  assert (st' = st \/ exists e, st' = App.updateNodeData (App.selectedNodeId st) e st)
    as [->|(e & ->)].
  { destruct H as [->|[->|[H|H]]].
    - right. apply onNameChange_shape.
    - apply onAddField_shape.
    - by apply onUpdateField_shape in H.
    - by apply onRemoveField_shape in H. }
  - done.
  - split; [|done]. intros i node Hi Hne.
    rewrite nodes_updateNodeData, Hi. simpl.
    rewrite (proj2 (strict_eq_false _ _)); [done|]. congruence.
Qed.

(** X4. A selected id that no node carries (a stale selection) makes the
    four editing operations return without any change of the state. *)
Theorem edits_with_stale_selection {Edge} (st : App.state Edge)
    (newName : string) (index : nat) (key value : string) :
  (forall node, node ∈ App.nodes st -> Some (Node.id node) <> App.selectedNodeId st) ->
  App.onNameChange newName st = st /\
  App.onAddField st = st /\
  App.onUpdateField index key value st = Some st /\
  App.onRemoveField index st = Some st.
Proof.
  intros H.
  assert (App.selectedNode st = None) as Hsel.
  { unfold App.selectedNode.
    destruct (find _ _) as [node|] eqn:E; [|done].
    apply find_some in E as [Hin E]. apply strict_eq_true in E.
    destruct (H node); [by apply list_elem_of_In|done]. }
  unfold App.onNameChange, App.onAddField, App.onUpdateField, App.onRemoveField.
  rewrite Hsel. split; [|done].
  apply updateNodeData_no_match. intros node Hin.
  apply strict_eq_false. intros E. by apply (H node).
Qed.

(** The parts of the state that a handler can change: the edges change
    only on a connection, the counter only on a drop (by one), the flow
    instance only on [onInit], the selection only on a click or a drop, and
    the nodes only on a drop or an editing operation. *)
Lemma step_frame {Connection Edge : Type}
    (addEdge : Connection -> list Edge -> list Edge)
    (st : App.state Edge) (e : App.event (Connection := Connection)) :
  (App.edges (App.step addEdge st e) <> App.edges st ->
   exists params, e = App.Connect params) /\
  (App.id (App.step addEdge st e) <> App.id st ->
   App.id (App.step addEdge st e) = N.succ (App.id st) /\
   exists type cx cy, e = App.Drop type cx cy) /\
  (App.reactFlowInstance (App.step addEdge st e) <> App.reactFlowInstance st ->
   exists inst, e = App.Init inst) /\
  (App.selectedNodeId (App.step addEdge st e) <> App.selectedNodeId st ->
   match e with
   | App.NodeClick _ | App.PaneClick | App.Drop _ _ _ => True
   | _ => False
   end) /\
  (App.nodes (App.step addEdge st e) <> App.nodes st ->
   match e with
   | App.Drop _ _ _ | App.NameChange _ | App.AddField
   | App.UpdateField _ _ _ | App.RemoveField _ => True
   | _ => False
   end).
Proof.
  unfold App.step.
  destruct (App.handle addEdge e st) as [st'|] eqn:E; simpl;
    [|by repeat split].
  destruct e; simpl in E.
  - injection E as <-. repeat split; try done. eauto.
  - injection E as <-. repeat split; try done. eauto.
  - revert E. unfold App.onDrop. destruct (Js.falsy type); [by intros [= <-]|].
    destruct (App.reactFlowInstance st) eqn:Hi; [|done]. cbn [App.getId].
    intros [= <-]. cbn. repeat split; try done; [|eauto].
    unfold Js.incr in *. by destruct (N.ltb _ _).
  - injection E as <-. by repeat split.
  - injection E as <-. by repeat split.
  - injection E as <-. by repeat split.
  - injection E as <-.
    destruct (onAddField_shape st) as [->|[d ->]]; by repeat split.
  - apply onUpdateField_shape in E as [->|[d ->]]; by repeat split.
  - apply onRemoveField_shape in E as [->|[d ->]]; by repeat split.
Qed.

(** X5. Which input can change which part of the state, the changes that
    the library passes through [onNodesChange] and [onEdgesChange] included:
    the edges change only on a connection or an edge change, the counter only
    on a drop (by one), the flow instance only on [onInit], the selection
    only on a click or a drop, and the node collection only on a drop, an
    editing operation or a node change. In particular a node change never
    touches the selection and no input but a drop takes an id. *)
Theorem react_frame {Connection Edge NodeChanges EdgeChanges : Type}
    (addEdge : Connection -> list Edge -> list Edge)
    (applyNodeChanges : NodeChanges -> list Node.t -> list Node.t)
    (applyEdgeChanges : EdgeChanges -> list Edge -> list Edge)
    (st : App.state Edge) (i : App.input) :
  (App.edges (App.react addEdge applyNodeChanges applyEdgeChanges st i)
   <> App.edges st ->
   match i with
   | App.Own (App.Connect _) | App.EdgesChange _ => True
   | _ => False
   end) /\
  (App.id (App.react addEdge applyNodeChanges applyEdgeChanges st i)
   <> App.id st ->
   App.id (App.react addEdge applyNodeChanges applyEdgeChanges st i)
   = N.succ (App.id st) /\
   exists type cx cy, i = App.Own (App.Drop type cx cy)) /\
  (App.reactFlowInstance (App.react addEdge applyNodeChanges applyEdgeChanges st i)
   <> App.reactFlowInstance st ->
   exists inst, i = App.Own (App.Init inst)) /\
  (App.selectedNodeId (App.react addEdge applyNodeChanges applyEdgeChanges st i)
   <> App.selectedNodeId st ->
   match i with
   | App.Own (App.NodeClick _) | App.Own App.PaneClick
   | App.Own (App.Drop _ _ _) => True
   | _ => False
   end) /\
  (App.nodes (App.react addEdge applyNodeChanges applyEdgeChanges st i)
   <> App.nodes st ->
   match i with
   | App.Own (App.Drop _ _ _) | App.Own (App.NameChange _)
   | App.Own App.AddField | App.Own (App.UpdateField _ _ _)
   | App.Own (App.RemoveField _) | App.NodesChange _ => True
   | _ => False
   end).
Proof.
  destruct i as [e|changes|changes]; [|by repeat split|by repeat split].
  cbn [App.react].
  destruct (step_frame addEdge st e) as (He & Hc & Hi & Hs & Hn).
  split; [|split; [|split; [|split]]].
  - intros H. destruct (He H) as [params ->]. done.
  - intros H. destruct (Hc H) as [Hsucc (type & cx & cy & ->)]. eauto.
  - intros H. destruct (Hi H) as [inst ->]. eauto.
  - intros H. specialize (Hs H). by destruct e.
  - intros H. specialize (Hn H). by destruct e.
Qed.

(** ** Further properties of the field operations *)

Section Fields.
Context {Edge : Type}.
Implicit Types (st : App.state Edge) (node : Node.t).
Implicit Types (a : Js.array) (e : Js.elem) (i j k : nat).

Lemma set_in_range a i e : i < length a -> Js.set a i e = <[i := Some e]> a.
Proof. intros H. unfold Js.set. by rewrite decide_True. Qed.

Lemma get_lookup a i e : a !! i = Some (Some e) -> Js.get a i = e.
Proof. intros H. unfold Js.get. by rewrite H. Qed.

Lemma get_insert_ne a i j s : j <> i -> Js.get (<[i := s]> a) j = Js.get a j.
Proof. intros H. unfold Js.get. by rewrite list_lookup_insert_ne. Qed.

(** A filter that rejects an index beyond the last slot keeps every slot
    that is not empty. *)
Lemma filter_from_beyond a k i :
  k + length a <= i ->
  Js.filter_from (fun _ j => negb (j =? i)) k a = filter is_Some a.
Proof.
  revert k. induction a as [|[e|] a IH]; intros k Hk; simpl in *; [done| |].
  - destruct (Nat.eqb_spec k i); [lia|]. simpl.
    rewrite filter_cons_True by eauto. f_equal. apply IH. lia.
  - rewrite filter_cons_False by (by intros [? ?]). apply IH. lia.
Qed.

Lemma filter_is_Some_dense a : dense a -> filter is_Some a = a.
Proof.
  induction 1 as [|s a Hs _ IH]; [done|].
  rewrite filter_cons_True by done. by rewrite IH.
Qed.

(** The state after an update of the field at [i], and the sequence it
    stores. *)
Lemma onUpdateField_stores st node fields i key value :
  App.selectedNode st = Some node ->
  Data.fields (Node.data node) = Some fields ->
  App.onUpdateField i key value st =
  Some (App.updateNodeData (App.selectedNodeId st)
          (Data.make None
             (Some (Js.set (Js.spread fields) i
                      (Js.Obj (<[key := value]> (Js.spread_obj (Js.get fields i)))))))
          st).
Proof.
  intros Hsel Hf. unfold App.onUpdateField. by rewrite Hsel, Hf, get_spread.
Qed.

Lemma selectedNode_stores st node fields' :
  App.selectedNode st = Some node ->
  App.selectedNode
    (App.updateNodeData (App.selectedNodeId st) (Data.make None (Some fields')) st)
  = Some (Node.make (Node.id node) (Node.type node) (Node.position node)
            (Data.make (Data.label (Node.data node)) (Some fields'))).
Proof. intros Hsel. by rewrite selectedNode_updateNodeData, Hsel. Qed.

Lemma selectedNodeId_updateNodeData x d st :
  App.selectedNodeId (App.updateNodeData x d st) = App.selectedNodeId st.
Proof. done. Qed.

End Fields.

(** X6. Update field within bounds: when slot [i] of the selected node's
    sequence holds the field [o], [onUpdateField i key value] returns and the
    selected node then holds a sequence of the same length whose slot [i] is
    [o] with the attribute [key] set to [value] and its other attributes
    kept; every other index reads as before (a sequence without empty slots
    changes at position [i] only), and the label is kept. *)
Theorem onUpdateField_in_range {Edge} (st : App.state Edge) (node : Node.t)
    (fields : Js.array) (i : nat) (key value : string) (o : Js.object) :
  App.selectedNode st = Some node ->
  Data.fields (Node.data node) = Some fields ->
  fields !! i = Some (Some (Js.Obj o)) ->
  exists st' node' fields',
    App.onUpdateField i key value st = Some st' /\
    App.selectedNode st' = Some node' /\
    Data.fields (Node.data node') = Some fields' /\
    Data.label (Node.data node') = Data.label (Node.data node) /\
    length fields' = length fields /\
    fields' !! i = Some (Some (Js.Obj (<[key := value]> o))) /\
    (<[key := value]> o) !! key = Some value /\
    (forall k, k <> key -> (<[key := value]> o) !! k = o !! k) /\
    (forall j, j <> i -> Js.get fields' j = Js.get fields j) /\
    (dense fields -> fields' = <[i := Some (Js.Obj (<[key := value]> o))]> fields).
Proof.
  intros Hsel Hf Hi.
  assert (i < length fields) as Hlt by (by eapply lookup_lt_Some).
  rewrite (onUpdateField_stores st node fields i key value Hsel Hf).
  rewrite (get_lookup _ _ _ Hi). simpl.
  rewrite set_in_range by (by rewrite spread_length).
  eexists _, _, _. split; [reflexivity|].
  split; [by apply selectedNode_stores|]. simpl.
  split; [reflexivity|]. split; [reflexivity|].
  split; [by rewrite length_insert, spread_length|].
  split; [apply list_lookup_insert_eq; by rewrite spread_length|].
  split; [apply lookup_insert_eq|].
  split; [intros k Hk; by apply lookup_insert_ne|].
  split.
  - intros j Hj. rewrite get_insert_ne by done. apply get_spread.
  - intros Hd. by rewrite spread_of_dense.
Qed.

(** X7. Two updates of the same attribute of the same field, the index
    being within bounds: the state is the one the second update alone
    gives (the last writer wins, and repeating an update changes nothing). *)
Theorem onUpdateField_last_wins {Edge} (st : App.state Edge) (node : Node.t)
    (fields : Js.array) (i : nat) (key v1 v2 : string) :
  App.selectedNode st = Some node ->
  Data.fields (Node.data node) = Some fields ->
  i < length fields ->
  App.onUpdateField i key v1 st ≫= App.onUpdateField i key v2
  = App.onUpdateField i key v2 st.
Proof.
  intros Hsel Hf Hi.
  rewrite !(onUpdateField_stores st node fields i key _ Hsel Hf). simpl.
  set (o := Js.spread_obj (Js.get fields i)).
  set (f1 := Js.set (Js.spread fields) i (Js.Obj (<[key := v1]> o))).
  set (st1 := App.updateNodeData (App.selectedNodeId st) (Data.make None (Some f1)) st).
  assert (App.selectedNode st1 = Some (Node.make (Node.id node) (Node.type node)
            (Node.position node) (Data.make (Data.label (Node.data node)) (Some f1))))
    as Hsel1 by (by apply selectedNode_stores).
  rewrite (onUpdateField_stores st1 _ f1 i key v2 Hsel1 eq_refl).
  change (App.selectedNodeId st1) with (App.selectedNodeId st).
  subst st1. rewrite updateNodeData_merge. unfold Data.spread. simpl.
  do 4 f_equal.
  assert (i < length (Js.spread fields)) as Hi' by (by rewrite spread_length).
  assert (f1 = <[i := Some (Js.Obj (<[key := v1]> o))]> (Js.spread fields)) as Hf1
    by (by apply set_in_range).
  assert (dense f1) as Hd1.
  { rewrite Hf1. apply Forall_insert; [apply spread_dense|eauto]. }
  rewrite (spread_of_dense f1 Hd1).
  rewrite (get_lookup f1 i (Js.Obj (<[key := v1]> o)))
    by (rewrite Hf1; by apply list_lookup_insert_eq).
  simpl. rewrite insert_insert_eq.
  rewrite (set_in_range f1) by (rewrite Hf1; by rewrite length_insert).
  rewrite Hf1, list_insert_insert_eq. symmetry. by apply set_in_range.
Qed.

(** X8. Add a field and then remove the last one: for a selected node
    whose sequence has no empty slot the removal returns and the selected
    node is the node it was; when the ids of the collection are pairwise
    different the whole state is the one before the two operations. *)
Theorem add_then_remove {Edge} (st : App.state Edge) (node : Node.t)
    (fields : Js.array) :
  App.selectedNode st = Some node ->
  Data.fields (Node.data node) = Some fields ->
  dense fields ->
  exists st',
    App.onRemoveField (length fields) (App.onAddField st) = Some st' /\
    App.selectedNode st' = Some node /\
    (NoDup (Node.id <$> App.nodes st) -> st' = st).
Proof.
  intros Hsel Hf Hd.
  assert (App.onAddField st =
          App.updateNodeData (App.selectedNodeId st)
            (Data.make None (Some (fields ++ [Some App.newProp]))) st) as Hadd.
  { unfold App.onAddField. rewrite Hsel, Hf. simpl. by rewrite spread_of_dense. }
  rewrite Hadd. unfold App.onRemoveField.
  rewrite (selectedNode_stores st node _ Hsel). simpl.
  rewrite filter_delete by (apply Forall_app; split; [done|repeat constructor; eauto]).
  rewrite delete_middle, app_nil_r.
  rewrite ?selectedNodeId_updateNodeData, updateNodeData_merge. eexists. split; [reflexivity|].
  assert (Data.spread (Node.data node)
            (Data.spread (Data.make None (Some (fields ++ [Some App.newProp])))
                         (Data.make None (Some fields))) = Node.data node) as Hsame.
  { unfold Data.spread. simpl. rewrite <- Hf. apply data_eta. }
  split.
  - rewrite selectedNode_updateNodeData, Hsel. simpl.
    by rewrite Hsame, node_eta.
  - intros Hnd. by eapply updateNodeData_same.
Qed.

(** X9. Remove field with an index at or beyond the end: the call
    returns and the selected node keeps exactly its slots that are not
    empty, in their order; a sequence without empty slots is unchanged. *)
Theorem onRemoveField_out_of_range {Edge} (st : App.state Edge) (node : Node.t)
    (fields : Js.array) (i : nat) :
  App.selectedNode st = Some node ->
  Data.fields (Node.data node) = Some fields ->
  length fields <= i ->
  exists st' node',
    App.onRemoveField i st = Some st' /\
    App.selectedNode st' = Some node' /\
    Data.fields (Node.data node') = Some (filter is_Some fields) /\
    (dense fields -> Data.fields (Node.data node') = Some fields).
Proof.
  intros Hsel Hf Hi. unfold App.onRemoveField. rewrite Hsel, Hf.
  eexists _, _. split; [reflexivity|].
  split; [by apply selectedNode_stores|]. simpl.
  unfold Js.filter. rewrite filter_from_beyond by (simpl; lia).
  split; [done|]. intros Hd. by rewrite filter_is_Some_dense.
Qed.

(** X10. A selected node whose data has no [fields]: update field and
    remove field throw, while add field starts the sequence with the default
    field. *)
Theorem edits_without_fields {Edge} (st : App.state Edge) (node : Node.t)
    (index : nat) (key value : string) :
  App.selectedNode st = Some node ->
  Data.fields (Node.data node) = None ->
  App.onUpdateField index key value st = None /\
  App.onRemoveField index st = None /\
  exists node',
    App.selectedNode (App.onAddField st) = Some node' /\
    Data.fields (Node.data node') = Some [Some App.newProp] /\
    Data.label (Node.data node') = Data.label (Node.data node).
Proof.
  intros Hsel Hf. unfold App.onUpdateField, App.onRemoveField, App.onAddField.
  rewrite Hsel, Hf. split; [done|]. split; [done|]. simpl.
  eexists. split; [by apply selectedNode_stores|]. done.
Qed.

(** X11. Rename: the selected node gets the new label and keeps its
    fields, its id, its kind and its position; of two renames in a row only
    the second shows. *)
Theorem onNameChange_renames {Edge} (st : App.state Edge) (node : Node.t)
    (newName other : string) :
  App.selectedNode st = Some node ->
  App.selectedNode (App.onNameChange newName st)
  = Some (Node.make (Node.id node) (Node.type node) (Node.position node)
            (Data.make (Some newName) (Data.fields (Node.data node))))
  /\ App.onNameChange newName (App.onNameChange other st)
     = App.onNameChange newName st.
Proof.
  intros Hsel. split.
  - unfold App.onNameChange. by rewrite selectedNode_updateNodeData, Hsel.
  - unfold App.onNameChange.
    by rewrite ?selectedNodeId_updateNodeData, updateNodeData_merge.
Qed.

(** ** Runs of the component *)

Section Runs.
Context {Connection Edge : Type}.
Variable addEdge : Connection -> list Edge -> list Edge.
Implicit Types (st : App.state Edge) (e : App.event (Connection := Connection)).

Lemma identity_updateNodeData x d st :
  identity <$> App.nodes (App.updateNodeData x d st) = identity <$> App.nodes st.
Proof.
  unfold App.updateNodeData. simpl. rewrite <- list_fmap_compose.
  apply list_fmap_ext. intros _ node _. simpl. by destruct (strict_eq _ _).
Qed.

(** A step keeps the nodes in place with their id, kind and position, or
    it is a drop that appends one node. *)
Lemma step_nodes st e :
  identity <$> App.nodes (App.step addEdge st e) = identity <$> App.nodes st \/
  exists new, App.nodes (App.step addEdge st e) = App.nodes st ++ [new].
Proof.
  unfold App.step.
  destruct (App.handle addEdge e st) as [st'|] eqn:E; simpl; [|by left].
  destruct e; simpl in E; try (injection E as <-; by left).
  - revert E. unfold App.onDrop. destruct (Js.falsy type); [intros [= <-]; by left|].
    destruct (App.reactFlowInstance st); [|done]. cbn [App.getId]. intros [= <-].
    right. by eexists.
  - injection E as <-. left. apply identity_updateNodeData.
  - injection E as <-. left.
    destruct (onAddField_shape st) as [->|[d ->]]; [done|].
    apply identity_updateNodeData.
  - left. apply onUpdateField_shape in E as [->|[d ->]]; [done|].
    apply identity_updateNodeData.
  - left. apply onRemoveField_shape in E as [->|[d ->]]; [done|].
    apply identity_updateNodeData.
Qed.

(** The only two ways in which a handler throws. *)
Lemma handle_throws st e :
  App.handle addEdge e st = None ->
  (exists type cx cy,
     e = App.Drop type cx cy /\ type <> EmptyString /\
     App.reactFlowInstance st = None) \/
  (exists node,
     App.selectedNode st = Some node /\ Data.fields (Node.data node) = None /\
     ((exists i k v, e = App.UpdateField i k v) \/ (exists i, e = App.RemoveField i))).
Proof.
  destruct e; simpl; try done.
  - unfold App.onDrop, Js.falsy. case_decide as Ht; [done|].
    destruct (App.reactFlowInstance st); [done|]. intros _. left. by eexists _, _, _.
  - unfold App.onUpdateField. destruct (App.selectedNode st) as [node|]; [|done].
    destruct (Data.fields (Node.data node)) eqn:Hf; [done|]. intros _. right.
    exists node. repeat split; try done. left. by eexists _, _, _.
  - unfold App.onRemoveField. destruct (App.selectedNode st) as [node|]; [|done].
    destruct (Data.fields (Node.data node)) eqn:Hf; [done|]. intros _. right.
    exists node. repeat split; try done. right. by eexists.
Qed.

Lemma has_fields_updateNodeData x d st :
  is_Some (Data.fields d) -> has_fields st -> has_fields (App.updateNodeData x d st).
Proof.
  intros Hd H. unfold has_fields, App.updateNodeData. simpl.
  apply Forall_fmap. eapply Forall_impl; [exact H|].
  intros node Hn. simpl. destruct (strict_eq _ _); [|done].
  simpl. destruct Hd as [a ->]. eauto.
Qed.

Lemma has_fields_step st e : has_fields st -> has_fields (App.step addEdge st e).
Proof.
  intros H. unfold App.step.
  destruct (App.handle addEdge e st) as [st'|] eqn:E; simpl; [|done].
  destruct e; simpl in E; try (by injection E as <-).
  - revert E. unfold App.onDrop. destruct (Js.falsy type); [by intros [= <-]|].
    destruct (App.reactFlowInstance st); [|done]. simpl. intros [= <-].
    unfold has_fields. simpl. apply Forall_app. split; [done|].
    apply Forall_singleton. simpl. eauto.
  - injection E as <-. unfold App.onNameChange, has_fields, App.updateNodeData.
    simpl. apply Forall_fmap. eapply Forall_impl; [exact H|].
    intros node Hn. simpl. by destruct (strict_eq _ _).
  - injection E as <-. unfold App.onAddField.
    destruct (App.selectedNode st); [|done].
    apply has_fields_updateNodeData; [simpl; eauto|done].
  - revert E. unfold App.onUpdateField.
    destruct (App.selectedNode st) as [node|]; [|by intros [= <-]].
    destruct (Data.fields (Node.data node)); [|done]. intros [= <-].
    apply has_fields_updateNodeData; [simpl; eauto|done].
  - revert E. unfold App.onRemoveField.
    destruct (App.selectedNode st) as [node|]; [|by intros [= <-]].
    destruct (Data.fields (Node.data node)); [|done]. intros [= <-].
    apply has_fields_updateNodeData; [simpl; eauto|done].
Qed.

Lemma has_fields_run es st : has_fields st -> has_fields (App.run addEdge es st).
Proof.
  revert st. induction es as [|e es IH]; intros st H; [done|].
  simpl. apply IH. by apply has_fields_step.
Qed.

Lemma instance_step st e :
  is_Some (App.reactFlowInstance st) ->
  is_Some (App.reactFlowInstance (App.step addEdge st e)).
Proof.
  intros H. unfold App.step.
  destruct (App.handle addEdge e st) as [st'|] eqn:E; simpl; [|done].
  destruct e; simpl in E; try (by injection E as <-).
  - revert E. unfold App.onDrop. destruct (Js.falsy type); [by intros [= <-]|].
    destruct (App.reactFlowInstance st) eqn:Hi; [|by destruct H].
    intros [= <-]. simpl. rewrite Hi. eauto.
  - injection E as <-. unfold App.onAddField. by destruct (App.selectedNode st).
  - by apply onUpdateField_shape in E as [->|[d ->]].
  - by apply onRemoveField_shape in E as [->|[d ->]].
Qed.

Lemma instance_run es st :
  is_Some (App.reactFlowInstance st) \/ (exists inst, App.Init inst ∈ es) ->
  is_Some (App.reactFlowInstance (App.run addEdge es st)).
Proof.
  revert st. induction es as [|e es IH]; intros st H.
  - destruct H as [H|[inst H]]; [done|]. by apply not_elem_of_nil in H.
  - simpl. apply IH. destruct H as [H|[inst H]].
    + left. by apply instance_step.
    + apply elem_of_cons in H as [<-|H]; [left; simpl; eauto|right; eauto].
Qed.

End Runs.

(** X13. None of the handlers written in the component removes, moves
    or renumbers a node: unless the input is a node change passed through
    [onNodesChange], the collection afterwards begins with the nodes it had,
    each with the id, the kind and the position it had, and has at most one
    node more. *)
Theorem react_keeps_nodes {Connection Edge NodeChanges EdgeChanges : Type}
    (addEdge : Connection -> list Edge -> list Edge)
    (applyNodeChanges : NodeChanges -> list Node.t -> list Node.t)
    (applyEdgeChanges : EdgeChanges -> list Edge -> list Edge)
    (st : App.state Edge) (i : App.input) :
  (forall changes, i <> App.NodesChange changes) ->
  identity <$> App.nodes st
    `prefix_of` identity
                  <$> App.nodes (App.react addEdge applyNodeChanges applyEdgeChanges st i)
  /\ length (App.nodes (App.react addEdge applyNodeChanges applyEdgeChanges st i))
     <= S (length (App.nodes st)).
Proof.
  intros Hi. destruct i as [e|changes|changes]; cbn [App.react].
  - destruct (step_nodes addEdge st e) as [Hn|(new & Hn)].
    + rewrite Hn. split; [done|].
      apply (f_equal length) in Hn. rewrite !length_fmap in Hn. lia.
    + rewrite Hn, fmap_app, length_app. split; [by apply prefix_app_r|].
      simpl. lia.
  - by destruct (Hi changes).
  - split; [done|]. simpl. lia.
Qed.

(** X14. A handler throws in exactly two situations: a drop with a
    payload while the flow instance is not set, and an update or a removal
    of a field while the selected node has no [fields]. *)
Theorem handler_throws_iff {Connection Edge : Type}
    (addEdge : Connection -> list Edge -> list Edge)
    (st : App.state Edge) (e : App.event (Connection := Connection)) :
  App.handle addEdge e st = None <->
  (exists type cx cy,
     e = App.Drop type cx cy /\ type <> EmptyString /\
     App.reactFlowInstance st = None) \/
  (exists node,
     App.selectedNode st = Some node /\ Data.fields (Node.data node) = None /\
     ((exists i k v, e = App.UpdateField i k v) \/ (exists i, e = App.RemoveField i))).
Proof.
  split; [apply handle_throws|].
  intros [(type & cx & cy & -> & Ht & Hi)|(node & Hsel & Hf & [(i & k & v & ->)|(i & ->)])];
    simpl.
  - unfold App.onDrop, Js.falsy. rewrite decide_False by done. by rewrite Hi.
  - unfold App.onUpdateField. by rewrite Hsel, Hf.
  - unfold App.onRemoveField. by rewrite Hsel, Hf.
Qed.

(** X15. From the first render on every node has a [fields] array, so
    the only handler that can throw is a drop with a payload before
    [onInit]; once [onInit] has been handled no handler throws. *)
Theorem run_throws_only_before_init {Connection Edge : Type}
    (addEdge : Connection -> list Edge -> list Edge)
    (es : list (App.event (Connection := Connection)))
    (e : App.event (Connection := Connection)) :
  (App.handle addEdge e (App.run addEdge es App.initial) = None ->
   (exists type cx cy, e = App.Drop type cx cy /\ type <> EmptyString) /\
   forall inst, App.Init inst ∉ es) /\
  (forall node, node ∈ App.nodes (App.run addEdge es App.initial) ->
     is_Some (Data.fields (Node.data node))).
Proof.
  assert (has_fields (App.run addEdge es App.initial : App.state Edge)) as Hf.
  { apply has_fields_run. repeat constructor. simpl. eauto. }
  split; [|by apply Forall_forall].
  intros H. apply handle_throws in H
    as [(type & cx & cy & -> & Ht & Hi)|(node & Hsel & Hn & _)].
  - split; [by eexists _, _, _|]. intros inst Hin.
    destruct (instance_run addEdge es App.initial) as [i Hi']; [right; eauto|].
    congruence.
  - apply find_some in Hsel as [Hin _]. apply list_elem_of_In in Hin.
    unfold has_fields in Hf. rewrite Forall_forall in Hf.
    destruct (Hf node Hin) as [a Ha]. congruence.
Qed.

(** X16. From the first render on, as long as every update addresses an
    existing field of the selected node, no field sequence has an empty
    slot. *)
Theorem fields_stay_dense {Connection Edge : Type}
    (addEdge : Connection -> list Edge -> list Edge)
    (es : list (App.event (Connection := Connection))) :
  run_in_range addEdge es App.initial ->
  forall node fields,
    node ∈ App.nodes (App.run addEdge es App.initial) ->
    Data.fields (Node.data node) = Some fields ->
    dense fields.
Proof.
  intros Hr node fields Hin Hf.
  assert (fields_dense (App.run addEdge es App.initial)) as H
    by (apply fields_dense_run; [done|apply fields_dense_initial]).
  unfold fields_dense in H. rewrite Forall_forall in H.
  specialize (H node Hin). by rewrite Hf in H.
Qed.

(** ** The properties panel and the events it sends *)

Section Panel.
Context {Connection Edge : Type}.
Variable addEdge : Connection -> list Edge -> list Edge.
Implicit Types (st : App.state Edge) (e : App.event (Connection := Connection)).
Implicit Types (a : Js.array) (rs : list View.row).

Lemma rows_from_None k a : View.rows_from k a = None <-> Some Js.Undefined ∈ a.
Proof.
  revert k. induction a as [|[[|o]|] a IH]; intros k; simpl.
  - split; [done|]. by intros H%elem_of_nil.
  - split; [intros _; apply list_elem_of_here|done].
  - rewrite elem_of_cons, <- (IH (S k)).
    destruct (View.rows_from (S k) a); simpl; split; try done.
    + by intros [|].
    + intros. by right.
  - rewrite elem_of_cons, <- (IH (S k)). split; [by right|by intros [|]].
Qed.

(** The rows are the slots that hold an object, each under its index. *)
Lemma rows_from_index k a rs i :
  View.rows_from k a = Some rs ->
  i ∈ View.index <$> rs <->
  exists o, k <= i /\ a !! (i - k) = Some (Some (Js.Obj o)).
Proof.
  revert k rs. induction a as [|[[|o]|] a IH]; intros k rs; simpl.
  - intros [= <-]. split; [by intros H%elem_of_nil|by intros (o & _ & H)].
  - done.
  - destruct (View.rows_from (S k) a) as [rs'|] eqn:E; [|done].
    simpl. intros [= <-]. rewrite fmap_cons, elem_of_cons. simpl.
    rewrite (IH (S k) rs' E). split.
    + intros [->|(o' & Hk & H)].
      * exists o. split; [lia|]. by rewrite Nat.sub_diag.
      * exists o'. split; [lia|]. by replace (i - k) with (S (i - S k)) by lia.
    + intros (o' & Hk & H). destruct (decide (i = k)) as [->|Hne]; [by left|].
      right. exists o'. split; [lia|].
      by replace (i - k) with (S (i - S k)) in H by lia.
  - intros H. rewrite (IH (S k) rs H). split.
    + intros (o' & Hk & Ho). exists o'. split; [lia|].
      by replace (i - k) with (S (i - S k)) by lia.
    + intros (o' & Hk & Ho). destruct (decide (i = k)) as [->|Hne].
      { by rewrite Nat.sub_diag in Ho. }
      exists o'. split; [lia|]. by replace (i - k) with (S (i - S k)) in Ho by lia.
Qed.

(** The rows, spelled out slot by slot. *)
Lemma rows_from_imap k a rs :
  View.rows_from k a = Some rs ->
  rs = omap id
         (imap (fun j s =>
                  match s with
                  | Some (Js.Obj o) =>
                      Some (View.Row (k + j) (o !! "type") (o !! "name"))
                  | _ => None
                  end) a).
Proof.
  revert k rs. induction a as [|[[|o]|] a IH]; intros k rs.
  - by intros [= <-].
  - done.
  - change (View.rows_from k (Some (Js.Obj o) :: a))
      with (cons (View.Row k (o !! "type") (o !! "name"))
              <$> View.rows_from (S k) a).
    destruct (View.rows_from (S k) a) as [rs'|] eqn:E; [|done].
    intros [= <-]. rewrite imap_cons. cbn [omap list_omap id].
    rewrite Nat.add_0_r. f_equal. rewrite (IH (S k) rs' E). f_equal.
    apply imap_ext. intros j s _. cbn. by replace (k + S j) with (S (k + j)) by lia.
  - change (View.rows_from k (None :: a)) with (View.rows_from (S k) a).
    intros E. rewrite imap_cons. cbn [omap list_omap id].
    rewrite (IH (S k) rs E). f_equal.
    apply imap_ext. intros j s _. cbn. by replace (k + S j) with (S (k + j)) by lia.
Qed.

Lemma field_type (t n : string) :
  ({[ "type" := t; "name" := n ]} : Js.object) !! "type" = Some t.
Proof. apply lookup_insert_eq. Qed.

Lemma field_name (t n : string) :
  ({[ "type" := t; "name" := n ]} : Js.object) !! "name" = Some n.
Proof. rewrite lookup_insert_ne by done. apply lookup_singleton_eq. Qed.

Lemma rows_from_obj k o a :
  View.rows_from k (Some (Js.Obj o) :: a)
  = cons (View.Row k (o !! "type") (o !! "name")) <$> View.rows_from (S k) a.
Proof. done. Qed.

(** On a sequence of well-formed fields the rows are all the fields. *)
Lemma rows_from_ok k a :
  Forall field_ok a ->
  exists rs,
    View.rows_from k a = Some rs /\
    View.index <$> rs = seq k (length a) /\
    forall j t n,
      a !! j = Some (Some (Js.Obj {[ "type" := t; "name" := n ]})) ->
      rs !! j = Some (View.Row (k + j) (Some t) (Some n)).
Proof.
  intros H. revert k. induction H as [|s a (t & n & -> & Ht) _ IH]; intros k.
  - exists []. by repeat split.
  - destruct (IH (S k)) as (rs & Hrs & Hidx & Hrow).
    exists (View.Row k (Some t) (Some n) :: rs). split; [|split].
    + rewrite rows_from_obj, Hrs, field_type, field_name. reflexivity.
    + by rewrite fmap_cons, Hidx.
    + intros [|j] t' n' Hj.
      * assert ({[ "type" := t; "name" := n ]}
                = ({[ "type" := t'; "name" := n' ]} : Js.object)) as Ho.
        { change (Some (Some (Js.Obj {[ "type" := t; "name" := n ]}))
                  = Some (Some (Js.Obj {[ "type" := t'; "name" := n' ]}))) in Hj.
          congruence. }
        clear Hj. rename Ho into Hj. rewrite Nat.add_0_r.
        assert (Some t = Some t') as [= <-].
        { rewrite <- (field_type t n), Hj. apply field_type. }
        assert (Some n = Some n') as [= <-].
        { rewrite <- (field_name t n), Hj. apply field_name. }
        reflexivity.
      * change (rs !! j = Some (View.Row (k + S j) (Some t') (Some n'))).
        replace (k + S j) with (S k + j) by lia. apply Hrow. exact Hj.
Qed.

Lemma field_ok_dense a : Forall field_ok a -> dense a.
Proof.
  intros H. eapply Forall_impl; [exact H|]. intros s (t & n & -> & _). eauto.
Qed.

Lemma filter_from_Forall (P : option Js.elem -> Prop) f k a :
  Forall P a -> Forall P (Js.filter_from f k a).
Proof.
  intros H. revert k. induction H as [|[e|] a Hs _ IH]; intros k; simpl;
    [done| |by apply IH].
  destruct (f e k); [constructor; [done|apply IH]|apply IH].
Qed.

Lemma find_is_Some {A} (p : A -> bool) (l : list A) x :
  x ∈ l -> p x = true -> is_Some (find p l).
Proof.
  intros Hin Hp. destruct (find p l) eqn:E; [eauto|].
  apply list_elem_of_In in Hin. by rewrite (find_none _ _ E x Hin) in Hp.
Qed.

(** An update by a label, by well-formed fields or by both keeps the
    nodes well formed. *)
Lemma node_ok_updateNodeData x d st :
  (forall fields, Data.fields d = Some fields -> Forall field_ok fields) ->
  Forall node_ok (App.nodes st) ->
  Forall node_ok (App.nodes (App.updateNodeData x d st)).
Proof.
  intros Hd H. unfold App.updateNodeData. simpl.
  apply Forall_fmap. eapply Forall_impl; [exact H|].
  intros node [Hl (fields & Hf & Hok)]. simpl.
  destruct (strict_eq _ _); [|by split; eauto]. split; simpl.
  - destruct (Data.label d); simpl; eauto.
  - destruct (Data.fields d) as [fields'|] eqn:E; simpl; eauto.
Qed.

Lemma selection_ok_updateNodeData d st :
  selection_ok st ->
  selection_ok (App.updateNodeData (App.selectedNodeId st) d st).
Proof.
  intros [H|[node H]]; [by left|]. right.
  rewrite selectedNode_updateNodeData, H. simpl. eauto.
Qed.

Lemma well_formed_updateNodeData d st :
  (forall fields, Data.fields d = Some fields -> Forall field_ok fields) ->
  well_formed st ->
  well_formed (App.updateNodeData (App.selectedNodeId st) d st).
Proof.
  intros Hd [Hn Hs]. split.
  - by apply node_ok_updateNodeData.
  - by apply selection_ok_updateNodeData.
Qed.

(** The selected node of a well-formed state and its fields. *)
Lemma well_formed_selected st node :
  well_formed st -> App.selectedNode st = Some node ->
  exists fields,
    Data.fields (Node.data node) = Some fields /\ Forall field_ok fields.
Proof.
  intros [Hn _] Hsel. apply find_some in Hsel as [Hin _].
  rewrite Forall_forall in Hn. apply Hn. by apply list_elem_of_In.
Qed.

(** The rows shown for a well-formed state: one per field. *)
Lemma well_formed_rows st node fields :
  well_formed st -> App.selectedNode st = Some node ->
  Data.fields (Node.data node) = Some fields ->
  exists rs,
    View.render st
    = Some (View.Properties (Data.label (Node.data node)) rs
              (Node.id node) (Node.type node)) /\
    View.index <$> rs = seq 0 (length fields) /\
    forall j t n,
      fields !! j = Some (Some (Js.Obj {[ "type" := t; "name" := n ]})) ->
      rs !! j = Some (View.Row j (Some t) (Some n)).
Proof.
  intros Hwf Hsel Hf.
  destruct (well_formed_selected st node Hwf Hsel) as (fields' & Hf' & Hok).
  rewrite Hf in Hf'. injection Hf' as <-.
  destruct (rows_from_ok 0 fields Hok) as (rs & Hrs & Hidx & Hrow).
  exists rs. unfold View.render, View.rows. rewrite Hsel, Hf, Hrs. done.
Qed.

Lemma field_ok_update t n key value :
  t ∈ View.options ->
  (key = "type" /\ value ∈ View.options) \/ key = "name" ->
  field_ok (Some (Js.Obj (<[key := value]> {[ "type" := t; "name" := n ]}))).
Proof.
  intros Ht [[-> Hv]| ->].
  - exists value, n. split; [|done]. by rewrite insert_insert_eq.
  - exists t, value. split; [|done].
    rewrite insert_insert_ne by done. by rewrite <- insert_empty, insert_insert_eq.
Qed.

Lemma well_formed_step st e :
  offered st e = true -> well_formed st -> well_formed (App.step addEdge st e).
Proof.
  intros Hoff Hwf. unfold App.step.
  destruct (App.handle addEdge e st) as [st'|] eqn:E; simpl; [|done].
  destruct e; simpl in E, Hoff.
  - by injection E as <-.
  - by injection E as <-.
  - revert E. unfold App.onDrop. destruct (Js.falsy type); [by intros [= <-]|].
    destruct (App.reactFlowInstance st); [|done]. simpl. intros [= <-].
    destruct Hwf as [Hn _]. split; simpl.
    + apply Forall_app. split; [done|]. apply Forall_singleton.
      split; simpl; eauto.
    + right. unfold App.selectedNode. simpl.
      eapply find_is_Some; [apply elem_of_app; right; apply list_elem_of_here|].
      by apply strict_eq_true.
  - injection E as <-. destruct Hwf as [Hn _]. split; [done|]. right.
    apply bool_decide_eq_true in Hoff.
    apply list_elem_of_fmap in Hoff as (n & Hid & Hin).
    unfold App.selectedNode. simpl.
    eapply find_is_Some; [exact Hin|]. apply strict_eq_true. by rewrite Hid.
  - injection E as <-. destruct Hwf as [Hn _]. split; [done|]. by left.
  - injection E as <-. by apply well_formed_updateNodeData.
  - injection E as <-. unfold App.onAddField.
    destruct (App.selectedNode st) as [node|] eqn:Hsel; [|done].
    destruct (well_formed_selected st node Hwf Hsel) as (fields & Hf & Hok).
    apply well_formed_updateNodeData; [|done]. simpl. intros ? [= <-].
    rewrite Hf. simpl. rewrite spread_of_dense by (by apply field_ok_dense).
    apply Forall_app. split; [done|]. apply Forall_singleton.
    exists "String", "newProp". split; [done|]. apply list_elem_of_here.
  - revert E. unfold App.onUpdateField.
    destruct (App.selectedNode st) as [node|] eqn:Hsel; [|by intros [= <-]].
    destruct (well_formed_selected st node Hwf Hsel) as (fields & Hf & Hok).
    rewrite Hf. intros [= <-].
    destruct (well_formed_rows st node fields Hwf Hsel Hf) as (rs & Hr & Hidx & _).
    unfold shown_rows in Hoff. rewrite Hr in Hoff.
    apply andb_true_iff in Hoff as [Hi Hk].
    apply bool_decide_eq_true in Hi. rewrite Hidx in Hi.
    apply elem_of_seq in Hi as [_ Hi]. simpl in Hi.
    assert ((key = "type" /\ value ∈ View.options) \/ key = "name") as Hkey.
    { apply orb_true_iff in Hk as [Hk|Hk]; apply bool_decide_eq_true in Hk; eauto. }
    apply well_formed_updateNodeData; [|done]. simpl. intros ? [= <-].
    rewrite spread_of_dense by (by apply field_ok_dense).
    rewrite set_in_range by done.
    destruct (lookup_lt_is_Some_2 fields index Hi) as [s Hs].
    destruct (Forall_lookup_1 _ _ _ _ Hok Hs) as (t & n & -> & Ht).
    rewrite (get_lookup _ _ _ Hs). simpl.
    apply Forall_insert; [done|]. by apply field_ok_update.
  - revert E. unfold App.onRemoveField.
    destruct (App.selectedNode st) as [node|] eqn:Hsel; [|by intros [= <-]].
    destruct (well_formed_selected st node Hwf Hsel) as (fields & Hf & Hok).
    rewrite Hf. intros [= <-].
    apply well_formed_updateNodeData; [|done]. simpl. intros ? [= <-].
    by apply filter_from_Forall.
Qed.

Lemma well_formed_run es st :
  ui_run addEdge es st = true -> well_formed st ->
  well_formed (App.run addEdge es st).
Proof.
  revert st. induction es as [|e es IH]; intros st Hr Hwf; [done|].
  simpl in Hr. apply andb_true_iff in Hr as [He Hr].
  simpl. apply IH; [done|]. by apply well_formed_step.
Qed.

Lemma well_formed_initial : well_formed (App.initial : App.state Edge).
Proof.
  split; [|by left]. apply Forall_singleton. split; simpl; [eauto|].
  eexists. split; [reflexivity|].
  repeat constructor.
  - exists "String", "firstName". split; [done|]. apply list_elem_of_here.
  - exists "String", "lastName". split; [done|]. apply list_elem_of_here.
  - exists "Integer", "age". split; [done|].
    apply list_elem_of_further, list_elem_of_here.
Qed.

End Panel.

(** X17. Rendering the properties panel throws exactly when the field
    sequence of the selected node has a slot that holds [undefined]; empty
    slots, a missing [fields] and a missing selection do not make it throw. *)
Theorem render_throws_iff {Edge} (st : App.state Edge) :
  View.render st = None <->
  exists node fields,
    App.selectedNode st = Some node /\
    Data.fields (Node.data node) = Some fields /\
    Some Js.Undefined ∈ fields.
Proof.
  unfold View.render, View.rows. split.
  - destruct (App.selectedNode st) as [node|]; [|done].
    destruct (Data.fields (Node.data node)) as [fields|] eqn:Hf; [|done].
    destruct (View.rows_from 0 fields) eqn:E; [done|]. intros _.
    exists node, fields. split; [done|]. split; [done|].
    by apply (rows_from_None 0).
  - intros (node & fields & -> & -> & H). apply (rows_from_None 0) in H.
    by rewrite H.
Qed.

(** X18. What the panel shows: the hint exactly when no node carries
    the selected id; otherwise the label, the id and the kind of the selected
    node and, in the order of the field sequence, exactly one row for each
    slot that holds a field: the row carries the index of its slot, which is
    the index its controls pass to the handlers, and the [type] and the
    [name] of that field. Empty slots give no row, and a node without
    [fields] shows none. *)
Theorem render_shows {Edge} (st : App.state Edge) :
  (View.render st = Some View.Placeholder <-> App.selectedNode st = None) /\
  forall label rs id type,
    View.render st = Some (View.Properties label rs id type) ->
    exists node,
      App.selectedNode st = Some node /\
      label = Data.label (Node.data node) /\
      id = Node.id node /\ type = Node.type node /\
      rs = omap Datatypes.id
             (imap (fun j s =>
                      match s with
                      | Some (Js.Obj o) =>
                          Some (View.Row j (o !! "type") (o !! "name"))
                      | _ => None
                      end)
                   (default [] (Data.fields (Node.data node)))) /\
      forall i,
        i ∈ View.index <$> rs <->
        exists fields o,
          Data.fields (Node.data node) = Some fields /\
          fields !! i = Some (Some (Js.Obj o)).
Proof.
  unfold View.render, View.rows. split.
  - destruct (App.selectedNode st) as [node|]; [|done].
    destruct (Data.fields (Node.data node)) as [fields|]; [|done].
    by destruct (View.rows_from 0 fields).
  - intros label rs id type.
    destruct (App.selectedNode st) as [node|]; [|done].
    destruct (Data.fields (Node.data node)) as [fields|] eqn:Hf.
    + destruct (View.rows_from 0 fields) as [rs'|] eqn:E; [|done].
      intros [= <- <- <- <-]. exists node.
      split; [done|]. split; [done|]. split; [done|]. split; [done|].
      split; [rewrite Hf; exact (rows_from_imap 0 fields rs' E)|].
      intros i. split.
      * intros Hi. apply (rows_from_index 0 fields rs' i E) in Hi as (o & _ & Ho).
        rewrite Nat.sub_0_r in Ho. eauto.
      * intros (fields' & o & Hf' & Ho). rewrite Hf in Hf'. injection Hf' as <-.
        apply (rows_from_index 0 fields rs' i E). exists o.
        rewrite Nat.sub_0_r. split; [lia|done].
    + intros [= <- <- <- <-]. exists node.
      split; [done|]. split; [done|]. split; [done|]. split; [done|].
      split; [by rewrite Hf|]. intros i. split.
      * by intros H%elem_of_nil.
      * intros (fields' & o & Hf' & _). congruence.
Qed.

(** X19. From the first render on, while every event comes from the
    rendered interface, every node has a label and a field sequence, and
    every slot of it holds a field with exactly the attributes [type] and
    [name], the type being one of the options of the select. *)
Theorem ui_fields_typed {Connection Edge : Type}
    (addEdge : Connection -> list Edge -> list Edge)
    (es : list (App.event (Connection := Connection))) :
  ui_run addEdge es App.initial = true ->
  forall node,
    node ∈ App.nodes (App.run addEdge es App.initial) ->
    is_Some (Data.label (Node.data node)) /\
    exists fields,
      Data.fields (Node.data node) = Some fields /\
      forall s, s ∈ fields ->
        exists t n,
          s = Some (Js.Obj {[ "type" := t; "name" := n ]}) /\ t ∈ View.options.
Proof.
  intros Hr node Hin.
  destruct (well_formed_run addEdge es App.initial Hr well_formed_initial)
    as [Hn _].
  rewrite Forall_forall in Hn. destruct (Hn node Hin) as [Hl (fields & Hf & Hok)].
  split; [done|]. exists fields. split; [done|]. by apply Forall_forall.
Qed.



(** X21. From the first render on, while every event comes from the
    rendered interface, the panel renders without throwing, and for a
    selected node it shows one row per field, in order: row [j] carries the
    index [j], the type and the name of field [j]. Every index that a row
    passes to the handlers is therefore within bounds. *)
Theorem ui_panel_rows {Connection Edge : Type}
    (addEdge : Connection -> list Edge -> list Edge)
    (es : list (App.event (Connection := Connection))) :
  ui_run addEdge es App.initial = true ->
  is_Some (View.render (App.run addEdge es App.initial)) /\
  forall node,
    App.selectedNode (App.run addEdge es App.initial) = Some node ->
    exists fields rs,
      Data.fields (Node.data node) = Some fields /\
      View.render (App.run addEdge es App.initial)
      = Some (View.Properties (Data.label (Node.data node)) rs
                (Node.id node) (Node.type node)) /\
      View.index <$> rs = seq 0 (length fields) /\
      (forall i, i ∈ View.index <$> rs -> i < length fields) /\
      forall j t n,
        fields !! j = Some (Some (Js.Obj {[ "type" := t; "name" := n ]})) ->
        rs !! j = Some (View.Row j (Some t) (Some n)).
Proof.
  intros Hr.
  pose proof (well_formed_run addEdge es App.initial Hr well_formed_initial) as Hwf.
  set (st := App.run addEdge es App.initial) in *.
  assert (forall node, App.selectedNode st = Some node ->
            exists fields rs,
              Data.fields (Node.data node) = Some fields /\
              View.render st
              = Some (View.Properties (Data.label (Node.data node)) rs
                        (Node.id node) (Node.type node)) /\
              View.index <$> rs = seq 0 (length fields) /\
              (forall i, i ∈ View.index <$> rs -> i < length fields) /\
              forall j t n,
                fields !! j = Some (Some (Js.Obj {[ "type" := t; "name" := n ]})) ->
                rs !! j = Some (View.Row j (Some t) (Some n))) as H.
  { intros node Hsel.
    destruct (well_formed_selected st node Hwf Hsel) as (fields & Hf & _).
    destruct (well_formed_rows st node fields Hwf Hsel Hf) as (rs & Hrd & Hidx & Hrow).
    exists fields, rs. repeat split; try done.
    intros i Hi. rewrite Hidx in Hi. apply elem_of_seq in Hi. lia. }
  split; [|exact H].
  destruct (App.selectedNode st) as [node|] eqn:Hsel.
  - destruct (H node eq_refl) as (fields & rs & _ & -> & _). eauto.
  - unfold View.render. rewrite Hsel. eauto.
Qed.

(** ** The further statements at concrete states *)

Lemma updateNodeData_unique_witness :
  NoDup (Node.id <$> App.nodes Sample.dropped) /\
  App.nodes (App.updateNodeData (Some "2") Sample.rename Sample.dropped)
  = [Sample.person;
     Node.make "2" "concerto" (Position.make 100 100)
       (Data.make (Some "Vehicle") (Some []))].
Proof.
  assert (NoDup (Node.id <$> App.nodes Sample.dropped)) as H.
  { apply (bool_decide_unpack _). vm_compute. exact I. }
  split; [exact H|].
  rewrite (proj1 (updateNodeData_unique Sample.dropped "2" Sample.rename 1
                    Sample.concept H eq_refl eq_refl)).
  reflexivity.
Defined.

Lemma edits_reach_selected_only_witness :
  Some (Node.id Sample.concept) <> App.selectedNodeId Sample.clicked /\
  App.nodes (App.onAddField Sample.clicked) !! 1 = Some Sample.concept.
Proof.
  assert (Some (Node.id Sample.concept) <> App.selectedNodeId Sample.clicked) as H
    by discriminate.
  split; [exact H|].
  exact (proj1 (edits_reach_selected_only Sample.clicked
                  (App.onAddField Sample.clicked) EmptyString 0
                  EmptyString EmptyString (or_intror (or_introl eq_refl)))
           1 Sample.concept eq_refl H).
Defined.

Lemma edits_with_stale_selection_witness :
  (forall node, node ∈ App.nodes Case.stale ->
                Some (Node.id node) <> App.selectedNodeId Case.stale) /\
  App.onNameChange "Vehicle" Case.stale = Case.stale /\
  App.onAddField Case.stale = Case.stale /\
  App.onUpdateField 0 "name" "age" Case.stale = Some Case.stale /\
  App.onRemoveField 0 Case.stale = Some Case.stale.
Proof.
  assert (forall node, node ∈ App.nodes Case.stale ->
                       Some (Node.id node) <> App.selectedNodeId Case.stale) as H.
  { intros node Hin. apply list_elem_of_In in Hin. vm_compute in Hin.
    destruct Hin as [<-|[<-|[]]]; discriminate. }
  split; [exact H|].
  exact (edits_with_stale_selection Case.stale "Vehicle" 0 "name" "age" H).
Defined.

Lemma onUpdateField_in_range_witness :
  App.selectedNode Sample.clicked = Some Sample.person /\
  exists st' node' fields',
    App.onUpdateField 2 "name" "years" Sample.clicked = Some st' /\
    App.selectedNode st' = Some node' /\
    Data.fields (Node.data node') = Some fields' /\
    fields' = [Some Sample.firstName; Some Sample.lastName;
               Some (Js.Obj {[ "type" := "Integer"; "name" := "years" ]})].
Proof.
  assert (App.selectedNode Sample.clicked = Some Sample.person) as H by reflexivity.
  split; [exact H|].
  assert (dense [Some Sample.firstName; Some Sample.lastName; Some Sample.age]) as Hd.
  { repeat constructor; eexists; reflexivity. }
  destruct (onUpdateField_in_range Sample.clicked Sample.person
              [Some Sample.firstName; Some Sample.lastName; Some Sample.age] 2
              "name" "years" {[ "type" := "Integer"; "name" := "age" ]}
              H eq_refl eq_refl)
    as (st' & node' & fields' & Ha & Hb & Hc & _ & _ & _ & _ & _ & _ & He).
  exists st', node', fields'. split; [exact Ha|]. split; [exact Hb|].
  split; [exact Hc|]. rewrite (He Hd). vm_compute. reflexivity.
Defined.

Lemma onUpdateField_last_wins_witness :
  App.selectedNode Sample.clicked = Some Sample.person /\
  App.onUpdateField 2 "name" "years" Sample.clicked
    ≫= App.onUpdateField 2 "name" "age" = Some Sample.clicked.
Proof.
  assert (App.selectedNode Sample.clicked = Some Sample.person) as H by reflexivity.
  split; [exact H|].
  rewrite (onUpdateField_last_wins Sample.clicked Sample.person
             [Some Sample.firstName; Some Sample.lastName; Some Sample.age] 2
             "name" "years" "age" H eq_refl ltac:(simpl; lia)).
  vm_compute. reflexivity.
Defined.

Lemma add_then_remove_witness :
  App.selectedNode Sample.clicked = Some Sample.person /\
  NoDup (Node.id <$> App.nodes Sample.clicked) /\
  App.onRemoveField 3 (App.onAddField Sample.clicked) = Some Sample.clicked.
Proof.
  assert (App.selectedNode Sample.clicked = Some Sample.person) as H by reflexivity.
  assert (NoDup (Node.id <$> App.nodes Sample.clicked)) as Hn.
  { apply (bool_decide_unpack _). vm_compute. exact I. }
  assert (dense [Some Sample.firstName; Some Sample.lastName; Some Sample.age]) as Hd.
  { repeat constructor; eexists; reflexivity. }
  split; [exact H|]. split; [exact Hn|].
  destruct (add_then_remove Sample.clicked Sample.person
              [Some Sample.firstName; Some Sample.lastName; Some Sample.age]
              H eq_refl Hd) as (st' & Ha & _ & Hb).
  simpl in Ha. rewrite Ha. f_equal. exact (Hb Hn).
Defined.

Lemma onRemoveField_out_of_range_witness :
  App.selectedNode Sample.clicked = Some Sample.person /\
  exists st' node',
    App.onRemoveField 5 Sample.clicked = Some st' /\
    App.selectedNode st' = Some node' /\
    Data.fields (Node.data node')
    = Some [Some Sample.firstName; Some Sample.lastName; Some Sample.age].
Proof.
  assert (App.selectedNode Sample.clicked = Some Sample.person) as H by reflexivity.
  assert (dense [Some Sample.firstName; Some Sample.lastName; Some Sample.age]) as Hd.
  { repeat constructor; eexists; reflexivity. }
  split; [exact H|].
  destruct (onRemoveField_out_of_range Sample.clicked Sample.person
              [Some Sample.firstName; Some Sample.lastName; Some Sample.age] 5
              H eq_refl ltac:(simpl; lia)) as (st' & node' & Ha & Hb & _ & Hc).
  exists st', node'. split; [exact Ha|]. split; [exact Hb|exact (Hc Hd)].
Defined.

Lemma edits_without_fields_witness :
  App.selectedNode Case.bare_selected = Some Case.bare /\
  Data.fields (Node.data Case.bare) = None /\
  App.onUpdateField 0 "name" "age" Case.bare_selected = None /\
  App.onRemoveField 0 Case.bare_selected = None /\
  exists node',
    App.selectedNode (App.onAddField Case.bare_selected) = Some node' /\
    Data.fields (Node.data node') = Some [Some App.newProp].
Proof.
  assert (App.selectedNode Case.bare_selected = Some Case.bare) as H by reflexivity.
  split; [exact H|]. split; [reflexivity|].
  destruct (edits_without_fields Case.bare_selected Case.bare 0 "name" "age"
              H eq_refl) as (Ha & Hb & node' & Hc & Hd & _).
  split; [exact Ha|]. split; [exact Hb|]. exists node'. by split.
Defined.

Lemma onNameChange_renames_witness :
  App.selectedNode Sample.clicked = Some Sample.person /\
  (Node.data <$> App.selectedNode (App.onNameChange "Human" Sample.clicked))
  = Some (Data.make (Some "Human")
            (Some [Some Sample.firstName; Some Sample.lastName; Some Sample.age])).
Proof.
  assert (App.selectedNode Sample.clicked = Some Sample.person) as H by reflexivity.
  split; [exact H|].
  rewrite (proj1 (onNameChange_renames Sample.clicked Sample.person "Human"
                    EmptyString H)).
  reflexivity.
Defined.

Lemma fields_stay_dense_witness :
  run_in_range Case.noEdge Case.session App.initial /\
  forall node fields,
    node ∈ App.nodes (App.run Case.noEdge Case.session App.initial) ->
    Data.fields (Node.data node) = Some fields ->
    dense fields.
Proof.
  assert (run_in_range Case.noEdge Case.session App.initial) as H.
  { repeat (split; [vm_compute; try lia; exact I|]). exact I. }
  split; [exact H|]. exact (fields_stay_dense Case.noEdge Case.session H).
Defined.

Lemma ui_fields_typed_witness :
  ui_run Case.noEdge Case.session App.initial = true /\
  forall node,
    node ∈ App.nodes (App.run Case.noEdge Case.session App.initial) ->
    is_Some (Data.label (Node.data node)).
Proof.
  assert (ui_run Case.noEdge Case.session App.initial = true) as H
    by (vm_compute; reflexivity).
  split; [exact H|]. intros node Hin.
  exact (proj1 (ui_fields_typed Case.noEdge Case.session H node Hin)).
Defined.


Lemma react_keeps_nodes_witness :
  (forall changes : list string,
     App.Own (App.Drop "Concept" 100 100)
     <> (App.NodesChange changes : App.input (Connection := unit) (EdgeChanges := unit))) /\
  identity <$> App.nodes Sample.ready
    `prefix_of` identity
                  <$> App.nodes (App.react Case.noEdge Case.removed Case.noEdge
                                   Sample.ready (App.Own (App.Drop "Concept" 100 100))).
Proof.
  assert (forall changes : list string,
            App.Own (App.Drop "Concept" 100 100)
            <> (App.NodesChange changes
                : App.input (Connection := unit) (EdgeChanges := unit))) as H
    by discriminate.
  split; [exact H|].
  exact (proj1 (react_keeps_nodes Case.noEdge Case.removed Case.noEdge
                  Sample.ready (App.Own (App.Drop "Concept" 100 100)) H)).
Defined.

Lemma ui_panel_rows_witness :
  ui_run Case.noEdge (removelast Case.session) App.initial = true /\
  is_Some (View.render (App.run Case.noEdge (removelast Case.session) App.initial)).
Proof.
  assert (ui_run Case.noEdge (removelast Case.session) App.initial = true) as H
    by (vm_compute; reflexivity).
  split; [exact H|].
  exact (proj1 (ui_panel_rows Case.noEdge (removelast Case.session) H)).
Defined.

(** Two nodes under one id are both rewritten by an update, which is why
    the replacement of a single element asks for pairwise different ids. *)
Example twins_both_updated :
  Node.data <$> App.nodes (App.onNameChange "Human" Case.twins)
  = [Data.make (Some "Human")
       (Some [Some Sample.firstName; Some Sample.lastName; Some Sample.age]);
     Data.make (Some "Human")
       (Some [Some Sample.firstName; Some Sample.lastName; Some Sample.age])].
Proof. reflexivity. Qed.

(** After an update beyond the end and an added field the panel cannot be
    rendered: the copy made by add field turns the empty slots into slots
    that hold [undefined]. *)
Example render_after_sparse_update :
  let s1 := default Sample.dropped (App.onUpdateField 2 "name" "age" Sample.dropped) in
  shown_rows s1 = Some [View.Row 2 None (Some "age")]
  /\ View.render (App.onAddField s1) = None.
Proof. split; vm_compute; reflexivity. Qed.
